(** * kaspa-wallet: UtxoSet, pending transactions, address discovery, sending

    A shallow embedding of [src/wallet/Wallet.ts] and of the [UtxoSet] class
    it imports, with the JavaScript behaviour of the emitted code written out
    where the TypeScript types say less than the run time does.

    Conventions.
    - A JavaScript [number] holding an integer is a [Z], and the sums the
      code takes ([totalVal], the balance, the pending amount) are taken in
      [Z]. That is what the code computes as long as the operands and every
      partial sum are safe integers (at most 2^53 - 1 in absolute value);
      beyond, the code's doubles round. Every statement below about a sum
      the code computes assumes that range ([Spec.exact_sums],
      [Spec.exact_pending], [Spec.safe]).
      A read that can yield [undefined] or [NaN] has type [Js.num].
    - A JavaScript object used as a dictionary is a list of (key, value)
      pairs kept in the order [Object.keys]/[Object.entries] enumerate it:
      array-index keys first, ascending, then the other keys in the order of
      their creation.
    - A thrown exception is the [Throw] outcome of a call; a call that
      mutates [this] returns the new state next to its outcome. *)

From Stdlib Require Import ZArith List String Ascii Bool Lia.
From Stdlib Require Import Decimal DecimalString DecimalZ.
From Stdlib Require HexadecimalString.
From Stdlib.Strings Require Byte.
Import ListNotations.
Open Scope string_scope.
Open Scope list_scope.
Open Scope Z_scope.

(* ------------------------------------------------------------------ *)
(** ** JavaScript values and plain objects *)

Module Js.

(** A value of type [number | undefined], as far as the wallet uses it. *)
Inductive num : Type :=
| Undefined
| NaN
| Num (z : Z).

(** [a - b]: [ToNumber(undefined)] is [NaN], and [NaN] is absorbing. *)
Definition sub (a b : num) : num :=
  match a, b with
  | Num x, Num y => Num (x - y)
  | _, _ => NaN
  end.

(** What a call can throw. [Error] carries the data its message is built
    from; [TypeError] is what calling a property that is not a function
    gives; [Rejected] is an error coming from a collaborator (the API). *)
Inductive message : Type :=
| AmountTooLarge
| ComposeError (need utxoBalance : Z).

Inductive exn : Type :=
| Error (m : message)
| TypeError (what : string)
| Rejected (detail : string).

Inductive result (A : Type) : Type :=
| Return (a : A)
| Throw (e : exn).
Arguments Return {A} a.
Arguments Throw {A} e.

(** [Number.prototype.toString] on an integer. *)
Definition toString (z : Z) : string := NilZero.string_of_int (Z.to_int z).

(** [Number.isSafeInteger] on an integer. *)
Definition isSafeInteger (z : Z) : bool :=
  (- (2 ^ 53 - 1) <=? z) && (z <=? 2 ^ 53 - 1).

(** [Array.prototype.indexOf] on an array of strings. *)
Fixpoint indexOf_from (i : Z) (l : list string) (x : string) : Z :=
  match l with
  | [] => -1
  | y :: r => if String.eqb y x then i else indexOf_from (i + 1) r x
  end.

Definition indexOf (l : list string) (x : string) : Z := indexOf_from 0 l x.

(** [n !== s] for a number [n] and a string [s]: the operands have
    different types, so strict inequality holds whatever their values. *)
Definition strict_neq_num_str (n : Z) (s : string) : bool := true.

(** A property key is an array index when it is the canonical decimal
    spelling of an integer below [2^32 - 1]. *)
Definition array_index (k : string) : option N :=
  match NilZero.uint_of_string k with
  | Some d =>
      let n := N.of_uint d in
      if String.eqb (NilZero.string_of_uint (N.to_uint n)) k
         && (n <? 2 ^ 32 - 1)%N
      then Some n else None
  | None => None
  end.

Section Obj.
Context {A : Type}.

Definition obj : Type := list (string * A).

(** [o[k]] *)
Fixpoint get (o : obj) (k : string) : option A :=
  match o with
  | [] => None
  | (k', v) :: r => if String.eqb k' k then Some v else get r k
  end.

Definition has (o : obj) (k : string) : bool :=
  match get o k with Some _ => true | None => false end.

(** Assignment to a property that exists keeps its place. *)
Fixpoint replace (o : obj) (k : string) (v : A) : obj :=
  match o with
  | [] => []
  | (k', v') :: r =>
      if String.eqb k' k then (k', v) :: r else (k', v') :: replace r k v
  end.

(** A new array-index key goes among the array-index keys, ascending. *)
Fixpoint insert_index (n : N) (k : string) (v : A) (o : obj) : obj :=
  match o with
  | [] => [(k, v)]
  | (k', v') :: r =>
      match array_index k' with
      | Some m =>
          if (m <? n)%N then (k', v') :: insert_index n k v r
          else (k, v) :: o
      | None => (k, v) :: o
      end
  end.

(** [o[k] = v] *)
Definition set (o : obj) (k : string) (v : A) : obj :=
  if has o k then replace o k v
  else match array_index k with
       | Some n => insert_index n k v o
       | None => o ++ [(k, v)]
       end.

(** [delete o[k]] *)
Fixpoint delete (o : obj) (k : string) : obj :=
  match o with
  | [] => []
  | (k', v') :: r =>
      if String.eqb k' k then delete r k else (k', v') :: delete r k
  end.

Definition keys (o : obj) : list string := map fst o.
Definition values (o : obj) : list A := map snd o.
Definition entries (o : obj) : list (string * A) := o.
End Obj.
Arguments obj A : clear implicits.

End Js.

(* ------------------------------------------------------------------ *)
(** ** Records of the API and of bitcore *)

Module Api.
Record Utxo : Type := mkUtxo {
  transactionId : string;
  index : Z;
  scriptPubKey : string;
  value : Z
}.
End Api.

Module Bitcore.
Record UnspentOutput : Type := mkUnspentOutput {
  txid : string;
  address : string;
  vout : Z;
  scriptPubKey : string;
  satoshis : Z
}.
End Bitcore.

(* ------------------------------------------------------------------ *)
(** ** class UtxoSet *)

Module UtxoSet.
Import Js.

(** The declared fields [utxos], [inUse], [availableBalance], and the
    property [balance] that [updateUtxoBalance] assigns; [balance] does not
    exist ([Undefined]) until that first assignment. *)
Record t : Type := mk {
  utxos : obj Bitcore.UnspentOutput;
  inUse : list string;
  availableBalance : Z;
  balance : num
}.

(** [new UtxoSet()] *)
Definition empty : t :=
  {| utxos := []; inUse := []; availableBalance := 0; balance := Undefined |}.

(** [this.totalBalance]: the class declares no such member and nothing
    assigns one, so the read gives [undefined]. *)
Definition totalBalance (s : t) : num := Undefined.

(** [get length()] *)
Definition length (s : t) : Z := Z.of_nat (List.length (keys (utxos s))).

(** [this.utxos[cur].satoshis] for a key [cur] of [this.utxos]. *)
Definition satoshis_at (o : obj Bitcore.UnspentOutput) (cur : string) : Z :=
  match get o cur with
  | Some u => Bitcore.satoshis u
  | None => 0
  end.

(** [updateUtxoBalance()]. The [reduce] adds doubles; the sum below is the
    exact one, which it computes when the values are non-negative and sum to
    a safe integer. *)
Definition updateUtxoBalance (s : t) : t :=
  let utxoIds :=
    filter (fun key => indexOf (inUse s) key =? -1) (keys (utxos s)) in
  {| utxos := utxos s;
     inUse := inUse s;
     availableBalance := availableBalance s;
     balance :=
       Num (fold_left (fun prev cur => prev + satoshis_at (utxos s) cur)
                      utxoIds 0) |}.

Definition utxoId_of (utxo : Api.Utxo) : string :=
  String.append (Api.transactionId utxo) (toString (Api.index utxo)).

(** The body of the [forEach] in [add]; the accumulator is [this] and the
    local array [utxoIds]. An [UnspentOutput] is an object, hence truthy, so
    [!this.utxos[utxoId]] holds exactly when the key is absent (a key ends
    with the digits of the index, so it names no inherited property). The
    bitcore constructor is taken to accept the fields it is given. *)
Definition add_step (address : string) (acc : t * list string)
    (utxo : Api.Utxo) : t * list string :=
  let '(s, utxoIds) := acc in
  let utxoId := utxoId_of utxo in
  if negb (has (utxos s) utxoId)
     && strict_neq_num_str (indexOf (inUse s) utxoId) utxoId
  then
    ({| utxos :=
          set (utxos s) utxoId
              {| Bitcore.txid := Api.transactionId utxo;
                 Bitcore.address := address;
                 Bitcore.vout := Api.index utxo;
                 Bitcore.scriptPubKey := Api.scriptPubKey utxo;
                 Bitcore.satoshis := Api.value utxo |};
        inUse := inUse s;
        availableBalance := availableBalance s;
        balance := balance s |},
     utxoIds ++ [utxoId])
  else acc.

(** [add(utxos, address)]: the new state and the returned ids. *)
Definition add (s : t) (us : list Api.Utxo) (address : string)
    : t * list string :=
  let '(s', utxoIds) := fold_left (add_step address) us (s, []) in
  (updateUtxoBalance s', utxoIds).

(** [enable(utxoIdsToEnable)] *)
Definition enable (s : t) (utxoIdsToEnable : list string) : t :=
  {| utxos := utxos s;
     inUse :=
       filter (fun utxoId => indexOf utxoIdsToEnable utxoId =? -1) (inUse s);
     availableBalance := availableBalance s;
     balance := balance s |}.

(** [this.utxoSet.inUse.push(...utxoIds)], as [composeTx] does it. *)
Definition inUse_push (s : t) (utxoIds : list string) : t :=
  {| utxos := utxos s;
     inUse := inUse s ++ utxoIds;
     availableBalance := availableBalance s;
     balance := balance s |}.

(** [clear()] *)
Definition clear (s : t) : t :=
  {| utxos := [];
     inUse := [];
     availableBalance := 0;
     balance := balance s |}.

(** The [for ... of Object.entries(this.utxos)] loop of [selectUtxos]; the
    accumulator is [(utxoIds, utxos, totalVal)]. [totalVal] is a double in
    the code; it is the exact sum kept here when the values are non-negative
    and the available ones sum to a safe integer. *)
Fixpoint select_loop (inUse : list string) (txAmount : Z)
    (es : list (string * Bitcore.UnspentOutput))
    (acc : list string * list Bitcore.UnspentOutput * Z)
    : list string * list Bitcore.UnspentOutput * Z :=
  match es with
  | [] => acc
  | (utxoId, utxo) :: rest =>
      let '(utxoIds, us, totalVal) := acc in
      let acc' :=
        if indexOf inUse utxoId =? -1
        then (utxoIds ++ [utxoId], us ++ [utxo],
              totalVal + Bitcore.satoshis utxo)
        else acc in
      if snd acc' >=? txAmount then acc'
      else select_loop inUse txAmount rest acc'
  end.

(** [release]: [Wallet.deleteTx] calls [this.utxoSet.release(utxoIds)], and
    the class has no member of that name (the method that filters [inUse] is
    [enable]); calling the undefined property throws a [TypeError] and
    leaves [this] as it was. *)
Definition release (s : t) (utxoIds : list string) : result t :=
  Throw (TypeError "this.utxoSet.release is not a function").

(** [selectUtxos(txAmount)]; the comparison with [txAmount] is that of the
    code when both sides are safe integers. *)
Definition selectUtxos (s : t) (txAmount : Z)
    : result (list string * list Bitcore.UnspentOutput) :=
  let '(utxoIds, us, totalVal) :=
    select_loop (inUse s) txAmount (entries (utxos s)) ([], [], 0) in
  if totalVal <? txAmount
  then Throw (Error (ComposeError txAmount totalVal))
  else Return (utxoIds, us).

End UtxoSet.

(* ------------------------------------------------------------------ *)
(** ** The [pending] object of a wallet *)

Module Pending.
Import Js.

Record tx : Type := mkTx {
  utxoIds : list string;
  rawTx : string;
  amount : Z
}.

(** [pending.transactions] *)
Definition t : Type := obj tx.

(** [get amount()]. The [reduce] adds doubles; the sum below is the exact
    one, which it computes when the amounts are non-negative and sum to a
    safe integer. *)
Definition total (p : t) : Z :=
  let transactions := values p in
  if Z.of_nat (List.length transactions) =? 0 then 0
  else fold_left (fun prev cur => prev + amount cur) transactions 0.

(** [add(id, tx)] *)
Definition add (p : t) (id : string) (x : tx) : t := set p id x.

End Pending.

(* ------------------------------------------------------------------ *)
(** ** AddressManager *)

Module AddressManager.
Import Js.

Inductive deriveType : Type := receive | change.

Definition PrivateKey : Type := string.

Record Derived : Type := mkDerived {
  index : Z;
  address : string;
  privateKey : PrivateKey
}.

(** Modelled from the spec: [src/wallet/AddressManager.ts] is not among the
    sources. The state is the two cursors ("next index to derive", one per
    chain) and the map [all] from every address handed out to its key. *)
Record t : Type := mk {
  receiveCounter : Z;
  changeCounter : Z;
  all : obj PrivateKey
}.

Definition counter (am : t) (ty : deriveType) : Z :=
  match ty with
  | receive => receiveCounter am
  | change => changeCounter am
  end.

Definition set_counter (am : t) (ty : deriveType) (c : Z) : t :=
  match ty with
  | receive =>
      {| receiveCounter := c; changeCounter := changeCounter am; all := all am |}
  | change =>
      {| receiveCounter := receiveCounter am; changeCounter := c; all := all am |}
  end.

(** Modelled from the spec: [new AddressManager(...)], both cursors at 0. *)
Definition init : t :=
  {| receiveCounter := 0; changeCounter := 0; all := [] |}.

(** The indices [offset, offset + n) of a batch; empty when [n <= 0]. *)
Definition batch_indices (n offset : Z) : list Z :=
  map (fun k => offset + Z.of_nat k) (seq 0 (Z.to_nat n)).

Section WithPrimitive.
(** The derivation primitive: the address and key at (chain, index). *)
Variable derive : deriveType -> Z -> string * PrivateKey.

(** Modelled from the spec: [getAddresses(n, deriveType, offset)] is
    [deriveBatch]: the descriptors at indices [offset, offset + n), in
    order, a pure function of (chain, index) that moves no cursor. *)
Definition getAddresses (n : Z) (ty : deriveType) (offset : Z)
    : list Derived :=
  map (fun i => {| index := i;
                   address := fst (derive ty i);
                   privateKey := snd (derive ty i) |})
      (batch_indices n offset).

(** Modelled from the spec: [receiveAddress.next()] / [changeAddress.next()]
    is [nextAddress]: the address at the cursor, and the cursor moves on
    by one. *)
Definition next (am : t) (ty : deriveType) : t * string :=
  let i := counter am ty in
  let am1 := set_counter am ty (i + 1) in
  ({| receiveCounter := receiveCounter am1;
      changeCounter := changeCounter am1;
      all := set (all am) (fst (derive ty i)) (snd (derive ty i)) |},
   fst (derive ty i)).
End WithPrimitive.

(** Modelled from the spec: [receiveAddress.advance(n)] /
    [changeAddress.advance(n)] is [advanceCursor]: the cursor becomes
    [max(current, n)]. *)
Definition advance (am : t) (ty : deriveType) (n : Z) : t :=
  set_counter am ty (Z.max (counter am ty) n).

End AddressManager.

(* ------------------------------------------------------------------ *)
(** ** class Wallet *)

Module Wallet.
Import Js.

(** What the wallet reads of an [Api.Transaction]. *)
Record Transaction : Type := mkTransaction {
  transactionId : string;
  acceptingBlockHash : string
}.

(** [tx.id] and [tx.toString()] of a signed bitcore transaction. *)
Record SignedTx : Type := mkSignedTx {
  id : string;
  raw : string
}.

(** [TxSend & { changeAddrOverride?: string }] *)
Record TxSend : Type := mkTxSend {
  toAddr : string;
  amount : Z;
  fee : option Z;
  changeAddrOverride : option string
}.

(** The value [composeTx] returns. *)
Record Composed : Type := mkComposed {
  c_id : string;
  c_rawTx : string;
  c_utxoIds : list string;
  c_amount : Z
}.

(** The fields of the wallet that the operations below read or write;
    [transactionsSorted] is a sorted copy of [transactionsStorage] that none
    of them reads. *)
Record t : Type := mk {
  balance : num;
  receiveAddress : string;
  utxoSet : UtxoSet.t;
  addressManager : AddressManager.t;
  pending : Pending.t;
  transactionsStorage : obj (list Transaction)
}.

Definition with_balance (w : t) (b : num) : t :=
  {| balance := b; receiveAddress := receiveAddress w; utxoSet := utxoSet w;
     addressManager := addressManager w; pending := pending w;
     transactionsStorage := transactionsStorage w |}.

Definition with_receiveAddress (w : t) (a : string) : t :=
  {| balance := balance w; receiveAddress := a; utxoSet := utxoSet w;
     addressManager := addressManager w; pending := pending w;
     transactionsStorage := transactionsStorage w |}.

Definition with_utxoSet (w : t) (u : UtxoSet.t) : t :=
  {| balance := balance w; receiveAddress := receiveAddress w; utxoSet := u;
     addressManager := addressManager w; pending := pending w;
     transactionsStorage := transactionsStorage w |}.

Definition with_addressManager (w : t) (am : AddressManager.t) : t :=
  {| balance := balance w; receiveAddress := receiveAddress w;
     utxoSet := utxoSet w; addressManager := am; pending := pending w;
     transactionsStorage := transactionsStorage w |}.

Definition with_pending (w : t) (p : Pending.t) : t :=
  {| balance := balance w; receiveAddress := receiveAddress w;
     utxoSet := utxoSet w; addressManager := addressManager w; pending := p;
     transactionsStorage := transactionsStorage w |}.

Definition with_transactionsStorage (w : t) (ts : obj (list Transaction)) : t :=
  {| balance := balance w; receiveAddress := receiveAddress w;
     utxoSet := utxoSet w; addressManager := addressManager w;
     pending := pending w; transactionsStorage := ts |}.

(** [Promise.all]: the results in order when every call completes. When
    several calls reject, [Promise.all] rejects with the one that settles
    first in time; the order of settling is not modelled, and the rejection
    reported here is the first in list order. No statement below says which
    of several rejections is reported. *)
Fixpoint promise_all {A : Type} (rs : list (result A)) : result (list A) :=
  match rs with
  | [] => Return []
  | Throw e :: _ => Throw e
  | Return a :: rest =>
      match promise_all rest with
      | Return l => Return (a :: l)
      | Throw e => Throw e
      end
  end.

(** [updateBalance()] *)
Definition updateBalance (w : t) : t :=
  with_balance w
    (sub (UtxoSet.totalBalance (utxoSet w)) (Num (Pending.total (pending w)))).

Section WithCollaborators.
(** The collaborators: key derivation, the three API calls, the bitcore
    transaction builder and signer, and the default fee of [config.json]. *)
Variable derive :
  AddressManager.deriveType -> Z -> string * AddressManager.PrivateKey.
Variable getUtxos : string -> result (list Api.Utxo).
Variable getTransactions : string -> result (list Transaction).
Variable postTx : string -> result unit.
Variable signTx :
  list Bitcore.UnspentOutput -> string -> Z -> Z -> string ->
  list (option AddressManager.PrivateKey) -> result SignedTx.
Variable DEFAULT_FEE : Z.

(** The state effects of [new Wallet(...)]: fresh members, and the first
    receive address taken from the address manager. *)
Definition init : t :=
  let '(am, a) :=
    AddressManager.next derive AddressManager.init AddressManager.receive in
  {| balance := Undefined;
     receiveAddress := a;
     utxoSet := UtxoSet.empty;
     addressManager := am;
     pending := [];
     transactionsStorage := [] |}.

(** [updateUtxos(addresses)] *)
Definition updateUtxos (w : t) (addresses : list string) : t * result unit :=
  match promise_all (map getUtxos addresses) with
  | Throw e => (w, Throw e)
  | Return utxoResults =>
      let u :=
        fold_left
          (fun u (au : string * list Api.Utxo) =>
             fst (UtxoSet.add u (snd au) (fst au)))
          (combine addresses utxoResults) (utxoSet w) in
      (updateBalance (with_utxoSet w u), Return tt)
  end.

(** The body of the [forEach] in [addTransactions]; the accumulator is
    [this.transactionsStorage] and the local [addressesWithTx]. *)
Definition addTransactions_step
    (acc : obj (list Transaction) * list string)
    (at_ : string * list Transaction)
    : obj (list Transaction) * list string :=
  let '(storage, addressesWithTx) := acc in
  let '(address, transactions) := at_ in
  if negb (Z.of_nat (List.length transactions) =? 0)
  then (set storage address transactions, addressesWithTx ++ [address])
  else acc.

(** [addTransactions(addresses)] *)
Definition addTransactions (w : t) (addresses : list string)
    : t * result (list string) :=
  match promise_all (map getTransactions addresses) with
  | Throw e => (w, Throw e)
  | Return txResults =>
      let '(storage, addressesWithTx) :=
        fold_left addTransactions_step (combine addresses txResults)
                  (transactionsStorage w, []) in
      (with_transactionsStorage w storage, Return addressesWithTx)
  end.

(** The recursive [doDiscovery] of [addressDiscovery(threshold)]. The
    recursion has no bound of its own, hence the fuel: [None] is "still
    running". *)
Fixpoint doDiscovery (fuel : nat) (threshold : Z) (w : t) (n : Z)
    (deriveType : AddressManager.deriveType) (offset : Z)
    : option (t * result Z) :=
  match fuel with
  | O => None
  | S fuel' =>
      let derivedObjs :=
        AddressManager.getAddresses derive n deriveType offset in
      let addresses := map AddressManager.address derivedObjs in
      match addTransactions w addresses with
      | (w1, Throw e) => Some (w1, Throw e)
      | (w1, Return addressesWithTx) =>
          if Z.of_nat (List.length addressesWithTx) =? 0
          then
            let lastIndexWithTx := offset - (threshold - n) - 1 in
            Some (w1, Return lastIndexWithTx)
          else
            let newN :=
              fold_left
                (fun prev cur => Z.max prev (AddressManager.index cur))
                (filter
                   (fun obj =>
                      negb (indexOf addressesWithTx
                                    (AddressManager.address obj) =? -1))
                   derivedObjs)
                0 + 1 in
            doDiscovery fuel' threshold w1 newN deriveType (offset + n)
      end
  end.

(** [addressDiscovery(threshold)] *)
Definition addressDiscovery (fuel : nat) (w : t) (threshold : Z)
    : option (t * result unit) :=
  match doDiscovery fuel threshold w threshold AddressManager.receive 0 with
  | None => None
  | Some (w1, Throw e) => Some (w1, Throw e)
  | Some (w1, Return highestReceiveIndex) =>
      match doDiscovery fuel threshold w1 threshold AddressManager.change 0 with
      | None => None
      | Some (w2, Throw e) => Some (w2, Throw e)
      | Some (w2, Return highestChangeIndex) =>
          let am1 :=
            AddressManager.advance (addressManager w2)
              AddressManager.receive (highestReceiveIndex + 1) in
          let am2 :=
            AddressManager.advance am1
              AddressManager.change (highestChangeIndex + 1) in
          let w3 := with_addressManager w2 am2 in
          Some (updateUtxos w3 (keys (transactionsStorage w3)))
      end
  end.

(** [composeTx({toAddr, amount, fee = DEFAULT_FEE, changeAddrOverride})] *)
Definition composeTx (w : t) (p : TxSend) : t * result Composed :=
  let fee := match fee p with Some f => f | None => DEFAULT_FEE end in
  if negb (isSafeInteger (amount p))
  then (w, Throw (Error AmountTooLarge))
  else
    match UtxoSet.selectUtxos (utxoSet w) (amount p + fee) with
    | Throw e => (w, Throw e)
    | Return (utxoIds, utxos) =>
        let privKeys :=
          fold_left
            (fun prev cur =>
               prev ++ [get (AddressManager.all (addressManager w))
                            (Bitcore.address cur)])
            utxos [] in
        let '(am, changeAddr) :=
          match changeAddrOverride p with
          | Some a =>
              if String.eqb a EmptyString
              then AddressManager.next derive (addressManager w)
                     AddressManager.change
              else (addressManager w, a)
          | None =>
              AddressManager.next derive (addressManager w)
                AddressManager.change
          end in
        let w1 := with_addressManager w am in
        match signTx utxos (toAddr p) (amount p) fee changeAddr privKeys with
        | Throw e => (w1, Throw e)
        | Return tx =>
            let w2 :=
              with_utxoSet w1 (UtxoSet.inUse_push (utxoSet w1) utxoIds) in
            let w3 :=
              with_pending w2
                (Pending.add (pending w2) (id tx)
                   {| Pending.rawTx := raw tx;
                      Pending.utxoIds := utxoIds;
                      Pending.amount := amount p + fee |}) in
            let w4 :=
              with_utxoSet w3 (UtxoSet.updateUtxoBalance (utxoSet w3)) in
            let w5 := updateBalance w4 in
            let '(am', a) :=
              AddressManager.next derive (addressManager w5)
                AddressManager.receive in
            let w6 := with_receiveAddress (with_addressManager w5 am') a in
            (w6, Return {| c_id := id tx; c_rawTx := raw tx;
                           c_utxoIds := utxoIds;
                           c_amount := amount p + fee |})
        end
    end.

(** [deleteTx(id)] *)
Definition deleteTx (w : t) (id : string) : t * result unit :=
  match get (pending w) id with
  | None =>
      (w, Throw (TypeError "Cannot destructure property 'utxoIds'"))
  | Some x =>
      let w1 := with_pending w (delete (pending w) id) in
      match UtxoSet.release (utxoSet w1) (Pending.utxoIds x) with
      | Throw e => (w1, Throw e)
      | Return u =>
          let w2 := with_utxoSet w1 (UtxoSet.updateUtxoBalance u) in
          (updateBalance w2, Return tt)
      end
  end.

(** [sendTx(txParams)] *)
Definition sendTx (w : t) (txParams : TxSend) : t * result string :=
  match composeTx w txParams with
  | (w1, Throw e) => (w1, Throw e)
  | (w1, Return c) =>
      match postTx (c_rawTx c) with
      | Return _ => (w1, Return (c_id c))
      | Throw e =>
          match deleteTx w1 (c_id c) with
          | (w2, Throw e') => (w2, Throw e')
          | (w2, Return _) => (w2, Throw e)
          end
      end
  end.

End WithCollaborators.

End Wallet.

(* ------------------------------------------------------------------ *)
(** ** What the sums and the membership mean, written independently *)

Module Spec.
Import Js.

Definition in_use (s : UtxoSet.t) (k : string) : bool :=
  existsb (fun y => String.eqb y k) (UtxoSet.inUse s).

(** The known outpoints that are not in use, in enumeration order. *)
Definition available (s : UtxoSet.t) : list (string * Bitcore.UnspentOutput) :=
  filter (fun e => negb (in_use s (fst e))) (UtxoSet.utxos s).

Definition sum_satoshis (us : list Bitcore.UnspentOutput) : Z :=
  fold_right (fun u acc => Bitcore.satoshis u + acc) 0 us.

Definition available_sum (s : UtxoSet.t) : Z :=
  sum_satoshis (map snd (available s)).

Definition known_sum (s : UtxoSet.t) : Z :=
  sum_satoshis (values (UtxoSet.utxos s)).

(** Every outpoint is known at most once. *)
Definition unique_keys (s : UtxoSet.t) : Prop :=
  NoDup (keys (UtxoSet.utxos s)).

(** The in-use ids are ids of known outpoints. *)
Definition inUse_known (s : UtxoSet.t) : Prop :=
  forall k, In k (UtxoSet.inUse s) -> has (UtxoSet.utxos s) k = true.

(** The available entries among [es], for a given [inUse] array. *)
Definition avail (inUse : list string)
    (es : list (string * Bitcore.UnspentOutput)) :=
  filter (fun e => negb (existsb (fun y => String.eqb y (fst e)) inUse)) es.

(** The [forEach] of [add], from a given accumulator. *)
Definition add_fold address us (acc : UtxoSet.t * list string) :=
  fold_left (UtxoSet.add_step address) us acc.

(** The sum of the amounts of the tracked pending transactions. *)
Definition pending_sum (p : Pending.t) : Z :=
  fold_right (fun x acc => Pending.amount x + acc) 0 (values p).

(** [Number.MAX_SAFE_INTEGER] *)
Definition MAX_SAFE_INTEGER : Z := 2 ^ 53 - 1.

(** A number that is a safe integer. *)
Definition safe (z : Z) : Prop := isSafeInteger z = true.

(** The range in which the sums the code takes over a UtxoSet are exact:
    the values are non-negative and the outpoints not in use sum to a safe
    integer, so that every partial sum is one. *)
Definition exact_sums (s : UtxoSet.t) : Prop :=
  (forall u, In u (values (UtxoSet.utxos s)) -> 0 <= Bitcore.satoshis u)
  /\ available_sum s <= MAX_SAFE_INTEGER.

(** The same range for the pending amount. *)
Definition exact_pending (p : Pending.t) : Prop :=
  (forall x, In x (values p) -> 0 <= Pending.amount x)
  /\ pending_sum p <= MAX_SAFE_INTEGER.

(** [add] as the specification words it: an outpoint is inserted when its
    key is neither known nor in use; the balance is recomputed; the ids
    inserted are returned. *)
Definition add_step_as_specified (address : string)
    (acc : UtxoSet.t * list string) (utxo : Api.Utxo)
    : UtxoSet.t * list string :=
  let '(s, utxoIds) := acc in
  let utxoId := UtxoSet.utxoId_of utxo in
  if negb (has (UtxoSet.utxos s) utxoId) && negb (in_use s utxoId)
  then
    ({| UtxoSet.utxos :=
          set (UtxoSet.utxos s) utxoId
              {| Bitcore.txid := Api.transactionId utxo;
                 Bitcore.address := address;
                 Bitcore.vout := Api.index utxo;
                 Bitcore.scriptPubKey := Api.scriptPubKey utxo;
                 Bitcore.satoshis := Api.value utxo |};
        UtxoSet.inUse := UtxoSet.inUse s;
        UtxoSet.availableBalance := UtxoSet.availableBalance s;
        UtxoSet.balance := UtxoSet.balance s |},
     utxoIds ++ [utxoId])
  else acc.

Definition add_as_specified (s : UtxoSet.t) (us : list Api.Utxo)
    (address : string) : UtxoSet.t * list string :=
  let '(s', utxoIds) :=
    fold_left (add_step_as_specified address) us (s, []) in
  (UtxoSet.updateUtxoBalance s', utxoIds).

(** The fee [composeTx] uses: the one given, else the default. *)
Definition fee_of (DEFAULT_FEE : Z) (p : Wallet.TxSend) : Z :=
  match Wallet.fee p with Some f => f | None => DEFAULT_FEE end.

End Spec.

(** The discovery algorithm as the specification words it, over the
    activity of one chain: [active i] says that the address at derivation
    index [i] has at least one transaction. *)
Module DiscoverySpec.

Inductive outcome : Type :=
| Terminates (highest : Z)
| Continues (batchSize offset : Z).

(** The greatest element of the non-empty list [x :: l]. *)
Definition maximum (x : Z) (l : list Z) : Z := fold_left Z.max l x.

Section OneChain.
Variable active : Z -> bool.

Definition active_in_batch (batchSize offset : Z) : list Z :=
  filter active (AddressManager.batch_indices batchSize offset).

(** Steps 5 and 6: no active address in the batch ends the discovery with
    [offset - (threshold - batchSize) - 1]; otherwise the next batch has size
    1 + (the maximum index among the active addresses of this batch) and
    starts [batchSize] further. *)
Definition step (threshold batchSize offset : Z) : outcome :=
  match active_in_batch batchSize offset with
  | [] => Terminates (offset - (threshold - batchSize) - 1)
  | i :: r => Continues (1 + maximum i r) (offset + batchSize)
  end.


(** [h] is the highest derivation index with any history, -1 when no
    index has any. *)
Definition highest_active (h : Z) : Prop :=
  (h = -1 /\ forall i, 0 <= i -> active i = false)
  \/ (0 <= h /\ active h = true /\ forall i, 0 <= i -> active i = true -> i <= h).
End OneChain.

(** Whether an address has any transaction in [history]. *)
Definition hasTx (history : string -> list Wallet.Transaction) (a : string)
    : bool :=
  negb (Z.of_nat (List.length (history a)) =? 0).

(** The activity of a chain, from the derivation primitive and the
    transaction history of every address. *)
Definition active_of
    (derive : AddressManager.deriveType -> Z -> string * AddressManager.PrivateKey)
    (history : string -> list Wallet.Transaction)
    (ty : AddressManager.deriveType) (i : Z) : bool :=
  hasTx history (fst (derive ty i)).

End DiscoverySpec.

(* ------------------------------------------------------------------ *)
(** ** Concrete collaborators and states for the examples *)

Module Fixture.
Import Js.

(** ("tx1", 0) worth 500, then ("tx2", 0) worth 700, added in that order to
    an empty set; nothing is in use. *)
Definition two_utxos : UtxoSet.t :=
  fst (UtxoSet.add UtxoSet.empty
         [Api.mkUtxo "tx1" 0 "76a914" 500; Api.mkUtxo "tx2" 0 "76a914" 700]
         "kaspatest:qq0d6h0prjm5").

Definition tx_a : Pending.tx :=
  {| Pending.utxoIds := ["tx10"]; Pending.rawTx := "0100"; Pending.amount := 101 |}.

Definition tx_b : Pending.tx :=
  {| Pending.utxoIds := ["tx20"]; Pending.rawTx := "0200"; Pending.amount := 7 |}.

(** Addresses "r0", "r1", ... on the receive chain and "c0", "c1", ... on
    the change chain. *)
Definition derive (ty : AddressManager.deriveType) (i : Z)
    : string * AddressManager.PrivateKey :=
  (String.append
     (match ty with
      | AddressManager.receive => "r"
      | AddressManager.change => "c"
      end) (toString i),
   String.append "key" (toString i)).

(** The API knows one outpoint, ("tx1", 0) worth 500, at address "r0". *)
Definition getUtxos (a : string) : result (list Api.Utxo) :=
  if String.eqb a "r0" then Return [Api.mkUtxo "tx1" 0 "76a914" 500]
  else Return [].

(** A signer that accepts every transaction. *)
Definition signTx (utxos : list Bitcore.UnspentOutput) (toAddr : string)
    (amount fee : Z) (changeAddr : string)
    (privKeys : list (option AddressManager.PrivateKey))
    : result Wallet.SignedTx :=
  Return {| Wallet.id := "txid1"; Wallet.raw := "0100" |}.

(** An endpoint that is down. *)
Definition postTx_down (rawTx : string) : result unit :=
  Throw (Rejected "FetchError").

(** A new wallet after [updateUtxos(["r0"])]. *)
Definition funded : Wallet.t :=
  fst (Wallet.updateUtxos getUtxos (Wallet.init derive) ["r0"]).

(** Send 100 with a fee of 1. *)
Definition pay100 : Wallet.TxSend :=
  {| Wallet.toAddr := "kaspatest:qq0d6h0prjm5";
     Wallet.amount := 100;
     Wallet.fee := Some 1;
     Wallet.changeAddrOverride := None |}.

Definition a_transaction : Wallet.Transaction :=
  {| Wallet.transactionId := "d78017"; Wallet.acceptingBlockHash := "000026" |}.

(** Transaction histories: the addresses whose receive index is in
    [indices] have one transaction, the others none. *)
Definition history_at (indices : list Z) (a : string)
    : list Wallet.Transaction :=
  if existsb (fun i => String.eqb (fst (derive AddressManager.receive i)) a)
             indices
  then [a_transaction] else [].

Definition getTransactions_at (indices : list Z) (a : string)
    : result (list Wallet.Transaction) :=
  Return (history_at indices a).

End Fixture.

(* ------------------------------------------------------------------ *)
(** ** The store action [getUniqueId] *)

Module Actions.

(** [b.toString(16)] for a byte of a [Uint8Array]: lower-case hexadecimal
    without leading zeros, "0" for 0. *)
Definition toString16 (b : Init.Byte.byte) : string :=
  HexadecimalString.NilZero.string_of_uint
    (N.to_hex_uint (Strings.Byte.to_N b)).

Fixpoint zeros (n : nat) : string :=
  match n with
  | O => EmptyString
  | S k => String "0" (zeros k)
  end.

(** [s.padStart(targetLength, '0')] *)
Definition padStart (targetLength : nat) (s : string) : string :=
  String.append (zeros (targetLength - String.length s)) s.

(** [hashArray.map((b) => b.toString(16).padStart(2, '0')).join('')] *)
Definition hashHex (hashArray : list Init.Byte.byte) : string :=
  String.concat EmptyString (map (fun b => padStart 2 (toString16 b)) hashArray).

Section WithCrypto.
(** [new TextEncoder().encode] and [crypto.subtle.digest('SHA-256', .)]. *)
Variable encode : string -> list Init.Byte.byte.
Variable digest : list Init.Byte.byte -> list Init.Byte.byte.

(** [getUniqueId(wallet)], from [wallet.mnemonic]. *)
Definition getUniqueId (mnemonic : string) : string :=
  let msgUint8 := encode mnemonic in
  let hashArray := digest msgUint8 in
  hashHex hashArray.
End WithCrypto.

End Actions.

(* ------------------------------------------------------------------ *)
(** ** Further notions used to state what the operations do *)

Module MoreSpec.
Import Js Spec.

(** The [UnspentOutput] that [add] builds for an incoming outpoint. *)
Definition unspent_of (address : string) (utxo : Api.Utxo)
    : Bitcore.UnspentOutput :=
  {| Bitcore.txid := Api.transactionId utxo;
     Bitcore.address := address;
     Bitcore.vout := Api.index utxo;
     Bitcore.scriptPubKey := Api.scriptPubKey utxo;
     Bitcore.satoshis := Api.value utxo |}.

(** The incoming outpoints whose key is neither among [seen] nor borne by
    an earlier outpoint of the list, in the order of the list. *)
Fixpoint fresh (seen : list string) (us : list Api.Utxo) : list Api.Utxo :=
  match us with
  | [] => []
  | u :: r =>
      if existsb (fun y => String.eqb y (UtxoSet.utxoId_of u)) seen
      then fresh seen r
      else u :: fresh (UtxoSet.utxoId_of u :: seen) r
  end.

Definition sum_values (us : list Api.Utxo) : Z :=
  fold_right (fun u acc => Api.value u + acc) 0 us.


(** The two halves of the UtxoSet invariant. *)
Definition well_formed (s : UtxoSet.t) : Prop :=
  unique_keys s /\ inUse_known s.

(** The value of a hexadecimal digit. *)
Definition hex_value (c : ascii) : option N :=
  let n := N_of_ascii c in
  if (48 <=? n)%N && (n <=? 57)%N then Some (n - 48)%N
  else if (97 <=? n)%N && (n <=? 102)%N then Some (n - 87)%N
  else None.

(** Reading back two hexadecimal digits per byte. *)
Fixpoint unhex (s : string) : option (list Init.Byte.byte) :=
  match s with
  | EmptyString => Some []
  | String c1 (String c2 r) =>
      match hex_value c1, hex_value c2, unhex r with
      | Some h, Some l, Some bs =>
          match Strings.Byte.of_N (16 * h + l) with
          | Some b => Some (b :: bs)
          | None => None
          end
      | _, _, _ => None
      end
  | String _ EmptyString => None
  end.

End MoreSpec.

(* ------------------------------------------------------------------ *)
(** ** Further states and collaborators for the examples *)

Module MoreFixture.
Import Js Fixture.

(** A new wallet holding the two outpoints of [two_utxos]. *)
Definition funded2 : Wallet.t :=
  Wallet.with_utxoSet (Wallet.init derive) two_utxos.

(** Send 1000 with a fee of 1: more than [funded] holds. *)
Definition pay1000 : Wallet.TxSend :=
  {| Wallet.toAddr := "kaspatest:qq0d6h0prjm5";
     Wallet.amount := 1000;
     Wallet.fee := Some 1;
     Wallet.changeAddrOverride := None |}.

(** [funded2] after one and after two [composeTx(pay100)]. *)
Definition funded2_paid : Wallet.t :=
  Eval vm_compute in fst (Wallet.composeTx derive signTx 0 funded2 pay100).

Definition funded2_paid_twice : Wallet.t :=
  Eval vm_compute in
    fst (Wallet.composeTx derive signTx 0 funded2_paid pay100).

(** An amount beyond the safe integers. *)
Definition pay_unsafe : Wallet.TxSend :=
  {| Wallet.toAddr := "kaspatest:qq0d6h0prjm5";
     Wallet.amount := 2 ^ 53;
     Wallet.fee := None;
     Wallet.changeAddrOverride := None |}.



(** An API whose transaction endpoint is down. *)
Definition getTransactions_down (a : string)
    : result (list Wallet.Transaction) :=
  Throw (Rejected "FetchError").

End MoreFixture.

(* ------------------------------------------------------------------ *)
(** ** Facts about arrays of strings and plain objects *)

Module JsFacts.
Import Js.

Ltac inv H := inversion H; subst; clear H.

(** On a concrete set, the range of the sums ([Spec.exact_sums],
    [Spec.exact_pending]) is settled by evaluation. *)
Ltac range_by_evaluation :=
  split;
  [ let u := fresh "u" in
    let Hu := fresh "Hu" in
    intros u Hu; vm_compute in Hu;
    repeat (destruct Hu as [<-|Hu]; [vm_compute; discriminate|]);
    destruct Hu
  | vm_compute; discriminate ].

Lemma indexOf_from_absent (l : list string) (x : string) (i : Z) :
  0 <= i ->
  (indexOf_from i l x =? -1) = negb (existsb (fun y => String.eqb y x) l).
Proof.
  revert i; induction l as [|y r IH]; intros i Hi; simpl.
  - reflexivity.
  - destruct (String.eqb y x); simpl.
    + apply Z.eqb_neq; lia.
    + apply IH; lia.
Qed.

Lemma indexOf_absent (l : list string) (x : string) :
  (indexOf l x =? -1) = negb (existsb (fun y => String.eqb y x) l).
Proof. apply indexOf_from_absent; lia. Qed.

Lemma existsb_eqb_In (l : list string) (x : string) :
  existsb (fun y => String.eqb y x) l = true <-> In x l.
Proof.
  rewrite existsb_exists; split.
  - intros [y [Hy E]]. apply String.eqb_eq in E. now subst.
  - intro H. exists x. split; [assumption | apply String.eqb_refl].
Qed.

Lemma existsb_eqb_notIn (l : list string) (x : string) :
  existsb (fun y => String.eqb y x) l = false <-> ~ In x l.
Proof.
  rewrite <- existsb_eqb_In. destruct (existsb _ l); split; intro H;
    try reflexivity; try discriminate; try (now intros ?).
  exfalso; now apply H.
Qed.

Section ObjFacts.
Context {A : Type}.
Implicit Types (o : obj A) (k : string) (v : A).

Lemma has_In o k : has o k = true <-> In k (keys o).
Proof.
  unfold has. induction o as [|[k' v'] r IH]; simpl.
  - split; [discriminate | tauto].
  - destruct (String.eqb_spec k' k) as [E|E].
    + split; [intros _; now left | reflexivity].
    + rewrite IH. split; [now right | intros [F|F]; [contradiction | assumption]].
Qed.

Lemma has_false_notIn o k : has o k = false <-> ~ In k (keys o).
Proof.
  rewrite <- has_In. destruct (has o k); split; intro H;
    try reflexivity; try discriminate; try (now intros ?).
  exfalso; now apply H.
Qed.

Lemma get_replace o k v k' :
  has o k = true ->
  get (replace o k v) k' = if String.eqb k k' then Some v else get o k'.
Proof.
  unfold has. induction o as [|[k0 v0] r IH]; simpl; [discriminate|].
  destruct (String.eqb_spec k0 k) as [E|E]; simpl.
  - subst k0. intros _. destruct (String.eqb k k'); reflexivity.
  - intro H. rewrite (IH H).
    destruct (String.eqb_spec k0 k') as [E1|E1];
      destruct (String.eqb_spec k k') as [E2|E2]; try reflexivity.
    congruence.
Qed.

Lemma get_insert_index o n k v k' :
  has o k = false ->
  get (insert_index n k v o) k' =
  if String.eqb k k' then Some v else get o k'.
Proof.
  unfold has. induction o as [|[k0 v0] r IH]; simpl; [reflexivity|].
  destruct (String.eqb_spec k0 k) as [E|E]; [discriminate|].
  intro H. destruct (array_index k0) as [m|]; [destruct (m <? n)%N|];
    simpl; try reflexivity.
  rewrite (IH H).
  destruct (String.eqb_spec k0 k') as [E1|E1];
    destruct (String.eqb_spec k k') as [E2|E2]; try reflexivity.
  congruence.
Qed.

Lemma get_app o o' k :
  get (o ++ o') k = match get o k with Some v => Some v | None => get o' k end.
Proof.
  induction o as [|[k0 v0] r IH]; simpl; [reflexivity|].
  destruct (String.eqb k0 k); [reflexivity | apply IH].
Qed.

(** Reading after writing. *)
Lemma get_set o k v k' :
  get (set o k v) k' = if String.eqb k k' then Some v else get o k'.
Proof.
  unfold set. destruct (has o k) eqn:H.
  - now apply get_replace.
  - destruct (array_index k) as [n|].
    + now apply get_insert_index.
    + rewrite get_app. simpl. destruct (get o k') eqn:G.
      * destruct (String.eqb_spec k k') as [E|E]; [|reflexivity].
        subst k'. unfold has in H. now rewrite G in H.
      * reflexivity.
Qed.

Lemma has_set o k v k' :
  has (set o k v) k' = String.eqb k k' || has o k'.
Proof.
  unfold has at 1. rewrite get_set. unfold has.
  destruct (String.eqb k k'); reflexivity.
Qed.

(** A new key that is not an array index goes last. *)
Lemma set_fresh o k v :
  has o k = false -> array_index k = None -> set o k v = o ++ [(k, v)].
Proof. unfold set. intros -> ->. reflexivity. Qed.

Lemma get_delete o k k' :
  get (delete o k) k' = if String.eqb k k' then None else get o k'.
Proof.
  induction o as [|[k0 v0] r IH]; simpl.
  - destruct (String.eqb k k'); reflexivity.
  - destruct (String.eqb_spec k0 k) as [E|E]; simpl.
    + subst k0. rewrite IH. destruct (String.eqb k k'); reflexivity.
    + rewrite IH. destruct (String.eqb_spec k0 k') as [E1|E1];
        destruct (String.eqb_spec k k') as [E2|E2]; try reflexivity.
      congruence.
Qed.

(** Adding a key that was absent and deleting it again. *)
Lemma delete_set_fresh o k v :
  has o k = false -> array_index k = None -> delete (set o k v) k = o.
Proof.
  intros H Hi. rewrite (set_fresh _ _ _ H Hi).
  induction o as [|[k0 v0] r IH]; simpl.
  - now rewrite String.eqb_refl.
  - unfold has in H. simpl in H. destruct (String.eqb k0 k); [discriminate|].
    f_equal. apply IH. exact H.
Qed.
End ObjFacts.

End JsFacts.

(* ------------------------------------------------------------------ *)
(** ** UtxoSet: input selection *)

Module SelectFacts.
Import Js Spec JsFacts.

Lemma sum_satoshis_app us vs :
  sum_satoshis (us ++ vs) = sum_satoshis us + sum_satoshis vs.
Proof. induction us as [|u r IH]; simpl; [reflexivity | rewrite IH; lia]. Qed.

(** The loop selects a prefix of the available entries: it extends the
    accumulator by the first [k] of them, no shorter non-empty prefix had
    reached the amount, and if the amount is still not reached at the end
    then every available entry was scanned. *)
Lemma select_loop_prefix inUse txAmount es :
  forall ids us tot,
  exists k : nat,
    let sel := firstn k (avail inUse es) in
    UtxoSet.select_loop inUse txAmount es (ids, us, tot) =
      (ids ++ map fst sel, us ++ map snd sel, tot + sum_satoshis (map snd sel))
    /\ (forall j, (0 < j < k)%nat ->
          tot + sum_satoshis (map snd (firstn j (avail inUse es))) < txAmount)
    /\ (tot + sum_satoshis (map snd sel) < txAmount ->
          sel = avail inUse es).
Proof.
  induction es as [|[kk u] rest IH]; intros ids us tot.
  - exists 0%nat. simpl. rewrite !app_nil_r, Z.add_0_r.
    split; [reflexivity | split; [intros j Hj; lia | reflexivity]].
  - simpl. rewrite indexOf_absent.
    destruct (existsb (fun y => String.eqb y kk) inUse) eqn:Hin; simpl.
    + (* in use: skipped *)
      destruct (tot >=? txAmount) eqn:Hge.
      * exists 0%nat. simpl. rewrite !app_nil_r, Z.add_0_r.
        split; [reflexivity | split; [intros j Hj; lia | intro; lia]].
      * exact (IH ids us tot).
    + (* available: taken *)
      destruct (tot + Bitcore.satoshis u >=? txAmount) eqn:Hge.
      * exists 1%nat. simpl. rewrite Z.add_0_r.
        split; [reflexivity | split; [intros j Hj; lia | intro; lia]].
      * destruct (IH (ids ++ [kk]) (us ++ [u]) (tot + Bitcore.satoshis u))
          as [k [E [P Q]]].
        exists (S k). simpl. rewrite E, <- !app_assoc. simpl.
        split; [f_equal; lia | split].
        -- intros [|j] Hj; [lia|]. simpl.
           destruct j as [|j].
           ++ simpl. lia.
           ++ specialize (P (S j)). simpl in P. simpl. lia.
        -- intro Hlt. f_equal. apply Q. lia.
Qed.

Lemma avail_available (s : UtxoSet.t) :
  avail (UtxoSet.inUse s) (entries (UtxoSet.utxos s)) = available s.
Proof. reflexivity. Qed.

Lemma sum_satoshis_firstn_le (us : list Bitcore.UnspentOutput) (k : nat) :
  (forall u, In u us -> 0 <= Bitcore.satoshis u) ->
  sum_satoshis (firstn k us) <= sum_satoshis us.
Proof.
  revert k; induction us as [|u r IH]; intros k Hpos.
  - rewrite firstn_nil. simpl; lia.
  - destruct k as [|k]; simpl.
    + assert (0 <= sum_satoshis r).
      { clear IH. induction r as [|u' r' IHr]; simpl; [lia|].
        assert (0 <= Bitcore.satoshis u') by (apply Hpos; simpl; auto).
        assert (0 <= sum_satoshis r').
        { apply IHr. intros x [Hx|Hx]; apply Hpos; simpl; auto. }
        lia. }
      assert (0 <= Bitcore.satoshis u) by (apply Hpos; simpl; auto). lia.
    + assert (sum_satoshis (firstn k r) <= sum_satoshis r).
      { apply IH. intros x Hx. apply Hpos. simpl; auto. }
      lia.
Qed.

(** A successful selection is the shortest non-empty prefix of the
    available entries that reaches the amount (the empty prefix when the
    first entry is in use and the amount is not positive). *)
Lemma selectUtxos_success (s : UtxoSet.t) (txAmount : Z) ids us :
  UtxoSet.selectUtxos s txAmount = Return (ids, us) ->
  exists k : nat,
    ids = map fst (firstn k (available s))
    /\ us = map snd (firstn k (available s))
    /\ txAmount <= sum_satoshis us
    /\ (forall j, (0 < j < k)%nat ->
          sum_satoshis (map snd (firstn j (available s))) < txAmount).
Proof.
  unfold UtxoSet.selectUtxos.
  destruct (select_loop_prefix (UtxoSet.inUse s) txAmount
              (entries (UtxoSet.utxos s)) [] [] 0) as [k [E [P Q]]].
  rewrite avail_available in *. cbv zeta in *. rewrite E. simpl.
  destruct (_ <? txAmount) eqn:Hlt; [discriminate|].
  intro H. inversion H; subst. exists k.
  apply Z.ltb_ge in Hlt. repeat split; [assumption | exact P].
Qed.

(** A failed selection has scanned every available entry, and reports
    their sum. *)
Lemma selectUtxos_failure (s : UtxoSet.t) (txAmount : Z) e :
  UtxoSet.selectUtxos s txAmount = Throw e ->
  e = Error (ComposeError txAmount (available_sum s))
  /\ available_sum s < txAmount.
Proof.
  unfold UtxoSet.selectUtxos.
  destruct (select_loop_prefix (UtxoSet.inUse s) txAmount
              (entries (UtxoSet.utxos s)) [] [] 0) as [k [E [P Q]]].
  rewrite avail_available in *. cbv zeta in *. rewrite E. simpl.
  destruct (_ <? txAmount) eqn:Hlt; [|discriminate].
  apply Z.ltb_lt in Hlt. intro H. inversion H; subst e. clear H.
  assert (Hs : sum_satoshis (map snd (firstn k (available s)))
               = available_sum s).
  { unfold available_sum. now rewrite (Q Hlt). }
  rewrite Hs in *. split; [reflexivity | assumption].
Qed.

Lemma selectUtxos_insufficient (s : UtxoSet.t) (txAmount : Z) :
  (forall u, In u (values (UtxoSet.utxos s)) -> 0 <= Bitcore.satoshis u) ->
  available_sum s < txAmount ->
  UtxoSet.selectUtxos s txAmount =
    Throw (Error (ComposeError txAmount (available_sum s))).
Proof.
  intros Hpos Hlt.
  destruct (UtxoSet.selectUtxos s txAmount) as [[ids us]|e] eqn:E.
  - exfalso. apply selectUtxos_success in E.
    destruct E as [k [_ [Hus [Hge _]]]]. subst us.
    rewrite <- firstn_map in Hge.
    assert (sum_satoshis (firstn k (map snd (available s)))
            <= sum_satoshis (map snd (available s))).
    { apply sum_satoshis_firstn_le. intros u Hu. apply Hpos.
      unfold values. apply in_map_iff in Hu. destruct Hu as [x [Hx Hin]].
      apply in_map_iff. exists x. split; [assumption|].
      unfold available in Hin. apply filter_In in Hin. tauto. }
    unfold available_sum in Hlt. lia.
  - apply selectUtxos_failure in E. destruct E as [-> _]. reflexivity.
Qed.

Lemma selectUtxos_sufficient (s : UtxoSet.t) (txAmount : Z) :
  txAmount <= available_sum s ->
  exists ids us, UtxoSet.selectUtxos s txAmount = Return (ids, us).
Proof.
  intro Hge.
  destruct (UtxoSet.selectUtxos s txAmount) as [[ids us]|e] eqn:E.
  - now exists ids, us.
  - apply selectUtxos_failure in E. lia.
Qed.

Lemma In_firstn {A : Type} (k : nat) (l : list A) (x : A) :
  In x (firstn k l) -> In x l.
Proof.
  revert k; induction l as [|y r IH]; intros [|k]; simpl; try tauto.
  intros [H|H]; [now left | right; now apply (IH k)].
Qed.

(** The selected ids are not in use. *)
Lemma selectUtxos_not_inUse (s : UtxoSet.t) (txAmount : Z) ids us :
  UtxoSet.selectUtxos s txAmount = Return (ids, us) ->
  forall k, In k ids -> ~ In k (UtxoSet.inUse s).
Proof.
  intros H k Hk. apply selectUtxos_success in H.
  destruct H as [n [-> _]].
  apply in_map_iff in Hk. destruct Hk as [[k' u] [<- Hin]].
  apply In_firstn in Hin. unfold available in Hin.
  apply filter_In in Hin. destruct Hin as [_ Hin]. simpl in Hin.
  apply existsb_eqb_notIn. unfold in_use in Hin.
  now destruct (existsb _ _).
Qed.

End SelectFacts.

(* ------------------------------------------------------------------ *)
(** ** UtxoSet: [add], the balance properties, [enable] *)

Module UtxoFacts.
Import Js Spec JsFacts.

Section KeysOfSet.
Context {A : Type}.
Implicit Types (o : obj A) (k : string) (v : A).

Lemma keys_replace o k v : keys (replace o k v) = keys o.
Proof.
  induction o as [|[k0 v0] r IH]; simpl; [reflexivity|].
  destruct (String.eqb k0 k); simpl; [reflexivity | now rewrite IH].
Qed.

Lemma In_keys_insert_index o n k v k' :
  In k' (keys (insert_index n k v o)) <-> k = k' \/ In k' (keys o).
Proof.
  induction o as [|[k0 v0] r IH]; simpl; [tauto|].
  destruct (array_index k0) as [m|]; [destruct (m <? n)%N|]; simpl; tauto.
Qed.

Lemma NoDup_keys_insert_index o n k v :
  ~ In k (keys o) -> NoDup (keys o) -> NoDup (keys (insert_index n k v o)).
Proof.
  induction o as [|[k0 v0] r IH]; simpl; intros Hk Hnd.
  - constructor; [tauto | constructor].
  - inversion Hnd as [|? ? Hk0 Hr]; subst.
    destruct (array_index k0) as [m|]; [destruct (m <? n)%N|]; simpl;
      try (constructor; [simpl; tauto | assumption]).
    constructor.
    + rewrite In_keys_insert_index. intros [E|E]; [|contradiction].
      apply Hk. now left.
    + apply IH; [tauto | assumption].
Qed.

Lemma NoDup_keys_set o k v :
  NoDup (keys o) -> NoDup (keys (set o k v)).
Proof.
  intro Hnd. unfold set. destruct (has o k) eqn:H.
  - now rewrite keys_replace.
  - apply has_false_notIn in H. destruct (array_index k) as [n|].
    + now apply NoDup_keys_insert_index.
    + unfold keys. rewrite map_app. simpl.
      apply NoDup_app; [exact Hnd | constructor; [tauto | constructor] |].
      intros x Hx [E|[]]. subst x. contradiction.
Qed.

Lemma get_In o k v :
  NoDup (keys o) -> In (k, v) o -> get o k = Some v.
Proof.
  induction o as [|[k0 v0] r IH]; simpl; intros Hnd Hin; [contradiction|].
  inversion Hnd as [|? ? Hk0 Hr]; subst.
  destruct Hin as [E|Hin].
  - inversion E; subst. now rewrite String.eqb_refl.
  - destruct (String.eqb_spec k0 k) as [E|E].
    + subst k0. exfalso. apply Hk0. unfold keys.
      apply in_map_iff. now exists (k, v).
    + now apply IH.
Qed.
End KeysOfSet.

(** The in-use test of [add] compares a number with a string, so the
    guard reduces to "the key is not known". *)
Lemma add_step_eq address s ids utxo :
  UtxoSet.add_step address (s, ids) utxo =
  if has (UtxoSet.utxos s) (UtxoSet.utxoId_of utxo) then (s, ids)
  else
    ({| UtxoSet.utxos :=
          set (UtxoSet.utxos s) (UtxoSet.utxoId_of utxo)
              {| Bitcore.txid := Api.transactionId utxo;
                 Bitcore.address := address;
                 Bitcore.vout := Api.index utxo;
                 Bitcore.scriptPubKey := Api.scriptPubKey utxo;
                 Bitcore.satoshis := Api.value utxo |};
        UtxoSet.inUse := UtxoSet.inUse s;
        UtxoSet.availableBalance := UtxoSet.availableBalance s;
        UtxoSet.balance := UtxoSet.balance s |},
     ids ++ [UtxoSet.utxoId_of utxo]).
Proof.
  unfold UtxoSet.add_step, strict_neq_num_str.
  destruct (has (UtxoSet.utxos s) (UtxoSet.utxoId_of utxo)); reflexivity.
Qed.

Lemma add_unfold s us address :
  UtxoSet.add s us address =
  (UtxoSet.updateUtxoBalance (fst (add_fold address us (s, []))),
   snd (add_fold address us (s, []))).
Proof.
  unfold UtxoSet.add, add_fold.
  now destruct (fold_left (UtxoSet.add_step address) us (s, [])).
Qed.

Lemma add_fold_cons address u r acc :
  add_fold address (u :: r) acc =
  add_fold address r (UtxoSet.add_step address acc u).
Proof. reflexivity. Qed.

(** [add] touches [utxos] only. *)
Lemma add_fold_frame address us :
  forall s ids,
    let s' := fst (add_fold address us (s, ids)) in
    UtxoSet.inUse s' = UtxoSet.inUse s
    /\ UtxoSet.availableBalance s' = UtxoSet.availableBalance s
    /\ UtxoSet.balance s' = UtxoSet.balance s.
Proof.
  induction us as [|u r IH]; intros s ids; cbv zeta.
  - simpl. auto.
  - rewrite add_fold_cons, add_step_eq.
    destruct (has (UtxoSet.utxos s) (UtxoSet.utxoId_of u)).
    + apply IH.
    + match goal with |- context [add_fold _ r (?s1, ?i1)] =>
        destruct (IH s1 i1) as [E1 [E2 E3]] end.
      cbv zeta in *. now rewrite E1, E2, E3.
Qed.

(** What [add] returns and what it makes known: the returned ids extend the
    local array by ids that were unknown, each once; a key is known
    afterwards when it was known before or is one of those; a known
    outpoint keeps its value; keys stay unique. *)
Lemma add_fold_spec address us :
  forall s ids,
    let s' := fst (add_fold address us (s, ids)) in
    exists new,
      snd (add_fold address us (s, ids)) = ids ++ new
      /\ NoDup new
      /\ (forall k, In k new <->
            In k (map UtxoSet.utxoId_of us) /\ has (UtxoSet.utxos s) k = false)
      /\ (forall k, has (UtxoSet.utxos s') k =
            has (UtxoSet.utxos s) k || existsb (fun y => String.eqb y k) new)
      /\ (forall k, has (UtxoSet.utxos s) k = true ->
            get (UtxoSet.utxos s') k = get (UtxoSet.utxos s) k)
      /\ (NoDup (keys (UtxoSet.utxos s)) -> NoDup (keys (UtxoSet.utxos s'))).
Proof.
  induction us as [|u r IH]; intros s ids; cbv zeta.
  - exists []. simpl. rewrite app_nil_r.
    split; [reflexivity|]. split; [constructor|].
    split; [intro k; tauto|].
    split; [intro k; now rewrite orb_false_r|].
    split; auto.
  - rewrite add_fold_cons, add_step_eq.
    destruct (has (UtxoSet.utxos s) (UtxoSet.utxoId_of u)) eqn:Hu.
    + destruct (IH s ids) as [new [E [Hnd [Hin [Hhas [Hget Huk]]]]]].
      exists new. split; [exact E|]. split; [exact Hnd|].
      split; [|split; [exact Hhas | split; [exact Hget | exact Huk]]].
      intro k. rewrite Hin. simpl. split; [tauto|].
      intros [[F|F] G]; [|tauto]. subst k. congruence.
    + match goal with |- context [add_fold _ r (?s1, ?i1)] =>
        destruct (IH s1 i1) as [new [E [Hnd [Hin [Hhas [Hget Huk]]]]]] end.
      cbv zeta in *. cbn [UtxoSet.utxos] in *.
      exists (UtxoSet.utxoId_of u :: new).
      split; [rewrite E, <- app_assoc; reflexivity|].
      split.
      { constructor; [|exact Hnd]. intro F. apply Hin in F.
        destruct F as [_ F]. rewrite has_set, String.eqb_refl in F.
        discriminate. }
      split.
      { intro k. simpl. rewrite Hin, has_set.
        destruct (String.eqb_spec (UtxoSet.utxoId_of u) k) as [F|F]; simpl.
        - subst k. tauto.
        - tauto. }
      split.
      { intro k. rewrite Hhas, has_set. simpl.
        destruct (String.eqb (UtxoSet.utxoId_of u) k);
          destruct (has (UtxoSet.utxos s) k); reflexivity. }
      split.
      { intros k Hk. rewrite Hget.
        - rewrite get_set.
          destruct (String.eqb_spec (UtxoSet.utxoId_of u) k) as [F|F];
            [subst k; congruence | reflexivity].
        - rewrite has_set, Hk. apply orb_true_r. }
      intro H. apply Huk. now apply NoDup_keys_set.
Qed.

(** With keys that are not array indices, the enumeration order is the
    insertion order: the entries known before keep their place and the
    new ones follow, in the order [add] returned them. *)
Lemma add_fold_appends address us :
  forall s ids,
    (forall u, In u us -> array_index (UtxoSet.utxoId_of u) = None) ->
    exists new_entries,
      UtxoSet.utxos (fst (add_fold address us (s, ids))) =
        UtxoSet.utxos s ++ new_entries
      /\ snd (add_fold address us (s, ids)) = ids ++ map fst new_entries.
Proof.
  induction us as [|u r IH]; intros s ids Hidx.
  - exists []. simpl. now rewrite !app_nil_r.
  - rewrite add_fold_cons, add_step_eq.
    destruct (has (UtxoSet.utxos s) (UtxoSet.utxoId_of u)) eqn:Hu.
    + apply IH. intros x Hx. apply Hidx. now right.
    + rewrite (set_fresh _ _ _ Hu (Hidx u (or_introl eq_refl))).
      match goal with |- context [add_fold _ r (?s1, ?i1)] =>
        destruct (IH s1 i1) as [ne [E1 E2]] end.
      { intros x Hx. apply Hidx. now right. }
      cbn [UtxoSet.utxos] in E1.
      match type of E1 with _ = (_ ++ [?e]) ++ _ => exists (e :: ne) end.
      rewrite E1, E2, <- !app_assoc. split; reflexivity.
Qed.

End UtxoFacts.

Module UtxoTheorems.
Import Js Spec JsFacts SelectFacts UtxoFacts Fixture.

(** C4. In the range where the code's sums are exact (non-negative
    values, the available outpoints summing to a safe integer, a safe
    integer asked for), [selectUtxos] scans the known outpoints that are not
    in use in enumeration order and selects a prefix of them: for a positive
    amount the shortest one whose sum reaches the amount, for an amount that
    is not positive at most the first one. A selection that
    succeeds sums to at least the amount; one that fails has scanned every
    available outpoint and reports their sum, and it fails whenever the
    available outpoints sum to less than the amount; it succeeds whenever
    they sum to at least the amount. The enumeration order is the insertion
    order: [add] leaves the known entries in place and appends the new ones
    in the order it inserted them (keys that are not array indices). With
    ("tx1",0) of 500 then ("tx2",0) of 700, [selectUtxos(600)] returns both
    ids, summing to 1200. *)
Theorem selectUtxos_prefix_until_target :
  (forall (s : UtxoSet.t) (txAmount : Z),
      exact_sums s ->
      safe txAmount ->
      (forall ids us,
          UtxoSet.selectUtxos s txAmount = Return (ids, us) ->
          exists k : nat,
            ids = map fst (firstn k (available s))
            /\ us = map snd (firstn k (available s))
            /\ txAmount <= sum_satoshis us
            /\ (forall j, (0 < j < k)%nat ->
                  sum_satoshis (map snd (firstn j (available s))) < txAmount)
            /\ (0 < txAmount ->
                forall j, (j < k)%nat ->
                  sum_satoshis (map snd (firstn j (available s))) < txAmount)
            /\ (txAmount <= 0 -> (k <= 1)%nat))
      /\ (forall e,
            UtxoSet.selectUtxos s txAmount = Throw e ->
            e = Error (ComposeError txAmount (available_sum s))
            /\ available_sum s < txAmount)
      /\ (available_sum s < txAmount ->
          UtxoSet.selectUtxos s txAmount =
            Throw (Error (ComposeError txAmount (available_sum s))))
      /\ (txAmount <= available_sum s ->
          exists ids us, UtxoSet.selectUtxos s txAmount = Return (ids, us)))
  /\ (forall (s : UtxoSet.t) (us : list Api.Utxo) (address : string),
        (forall u, In u us -> array_index (UtxoSet.utxoId_of u) = None) ->
        exists new_entries,
          UtxoSet.utxos (fst (UtxoSet.add s us address)) =
            UtxoSet.utxos s ++ new_entries
          /\ snd (UtxoSet.add s us address) = map fst new_entries)
  /\ (exact_sums two_utxos
      /\ safe 600
      /\ exists us,
           UtxoSet.selectUtxos two_utxos 600 = Return (["tx10"; "tx20"], us)
           /\ sum_satoshis us = 1200).
Proof.
  split; [|split].
  - intros s txAmount [Hpos _] _. split; [|split; [|split]].
    + intros ids us Hs.
      destruct (selectUtxos_success s txAmount ids us Hs)
        as [k [E1 [E2 [Hge Hj]]]].
      exists k. split; [exact E1|]. split; [exact E2|].
      split; [exact Hge|]. split; [exact Hj|]. split.
      * intros H0 [|j] Hlt; [simpl; exact H0 | apply Hj; lia].
      * intro Hle. destruct k as [|[|k]]; [lia | lia | exfalso].
        assert (H1 : sum_satoshis (map snd (firstn 1 (available s)))
                     < txAmount) by (apply Hj; lia).
        assert (H0 : 0 <= sum_satoshis (map snd (firstn 1 (available s)))).
        { apply (sum_satoshis_firstn_le _ 0).
          intros u Hin. apply Hpos. apply in_map_iff in Hin.
          destruct Hin as [e [<- Hin]]. apply In_firstn in Hin.
          apply filter_In in Hin. apply in_map. tauto. }
        lia.
    + intro e. apply selectUtxos_failure.
    + apply selectUtxos_insufficient. exact Hpos.
    + apply selectUtxos_sufficient.
  - intros s us address Hidx. rewrite add_unfold.
    destruct (add_fold_appends address us s [] Hidx) as [ne [E1 E2]].
    exists ne. split; [exact E1 | exact E2].
  - split; [|split; [reflexivity|]].
    + split; [|vm_compute; discriminate].
      intros u Hu. vm_compute in Hu.
      destruct Hu as [<-|[<-|[]]]; vm_compute; discriminate.
    + eexists. split; [vm_compute; reflexivity | reflexivity].
Qed.

(** Keys that are array indices enumerate in ascending numeric order
    whatever the order of insertion: ("2", 0) then ("1", 0) give the keys
    "10", "20". Transaction ids are hashes, so outpoint keys are not of
    that kind. *)
Lemma add_array_index_keys_ascending :
  keys (UtxoSet.utxos
          (fst (UtxoSet.add UtxoSet.empty
                  [Api.mkUtxo "2" 0 "76a914" 7; Api.mkUtxo "1" 0 "76a914" 9]
                  "kaspatest:qq0d6h0prjm5")))
  = ["10"; "20"].
Proof. vm_compute. reflexivity. Qed.

Lemma selectUtxos_prefix_until_target_witness :
  (exists k : nat,
      ["tx10"; "tx20"] = map fst (firstn k (available two_utxos))
      /\ 600 <= sum_satoshis (map snd (firstn k (available two_utxos)))
      /\ forall j, (j < k)%nat ->
           sum_satoshis (map snd (firstn j (available two_utxos))) < 600)
  /\ UtxoSet.selectUtxos two_utxos 2000 =
       Throw (Error (ComposeError 2000 1200))
  /\ (exists ids us, UtxoSet.selectUtxos two_utxos 1200 = Return (ids, us))
  /\ (exists new_entries,
        UtxoSet.utxos
          (fst (UtxoSet.add two_utxos [Api.mkUtxo "tx3" 1 "76a914" 40]
                  "kaspatest:qq0d6h0prjm5"))
        = UtxoSet.utxos two_utxos ++ new_entries
        /\ map fst new_entries = ["tx31"]).
Proof.
  destruct selectUtxos_prefix_until_target as [H [Hord [Hex _]]].
  split; [|split; [|split]];
    [| | | destruct (Hord two_utxos [Api.mkUtxo "tx3" 1 "76a914" 40]
                       "kaspatest:qq0d6h0prjm5") as [ne [E1 E2]];
           [ intros u [<-|[]]; vm_compute; reflexivity
           | exists ne; split; [exact E1 | rewrite <- E2; vm_compute; reflexivity] ] ].
  - destruct (proj1 (H two_utxos 600 Hex eq_refl) ["tx10"; "tx20"]
                (map snd (UtxoSet.utxos two_utxos)) eq_refl)
      as [k [E1 [E2 [E3 [_ [E4 _]]]]]].
    exists k. split; [exact E1|]. split; [rewrite <- E2; exact E3|].
    apply E4. reflexivity.
  - apply (proj1 (proj2 (proj2 (H two_utxos 2000 Hex eq_refl)))).
    vm_compute. reflexivity.
  - apply (proj2 (proj2 (proj2 (H two_utxos 1200 Hex eq_refl)))).
    vm_compute. discriminate.
Defined.

(* --- add ---------------------------------------------------------- *)

(** On every state, [add] returns exactly the ids it inserted: ids of the
    incoming list that were not known, each once, and the known keys
    afterwards are the old ones and those. *)
Lemma add_returns_inserted (s : UtxoSet.t) us address :
  let '(s', ids) := UtxoSet.add s us address in
  NoDup ids
  /\ (forall k, In k ids <->
        In k (map UtxoSet.utxoId_of us) /\ has (UtxoSet.utxos s) k = false)
  /\ (forall k, has (UtxoSet.utxos s') k = true <->
        has (UtxoSet.utxos s) k = true \/ In k ids)
  /\ (forall k, has (UtxoSet.utxos s) k = true ->
        get (UtxoSet.utxos s') k = get (UtxoSet.utxos s) k).
Proof.
  rewrite add_unfold.
  destruct (add_fold_spec address us s [])
    as [new [E [Hnd [Hin [Hhas [Hget _]]]]]].
  simpl in E. rewrite E. cbn [UtxoSet.updateUtxoBalance UtxoSet.utxos].
  split; [exact Hnd|]. split; [exact Hin|]. split; [|exact Hget].
  intro k. rewrite Hhas, orb_true_iff, existsb_eqb_In. tauto.
Qed.

(** On a state whose in-use ids are all known, what [add] inserts is
    neither known nor in use. *)
Lemma add_skips_inUse_when_known (s : UtxoSet.t) us address :
  inUse_known s ->
  forall k, In k (snd (UtxoSet.add s us address)) ->
            has (UtxoSet.utxos s) k = false /\ in_use s k = false.
Proof.
  intros Hinv k Hk.
  pose proof (add_returns_inserted s us address) as H.
  destruct (UtxoSet.add s us address) as [s' ids]. simpl in Hk.
  destruct H as [_ [Hin _]]. apply Hin in Hk. destruct Hk as [_ Hk].
  split; [exact Hk|]. unfold in_use. apply existsb_eqb_notIn.
  intro F. apply Hinv in F. congruence.
Qed.

Lemma add_fold_known address us :
  forall s ids,
    (forall u, In u us -> has (UtxoSet.utxos s) (UtxoSet.utxoId_of u) = true) ->
    add_fold address us (s, ids) = (s, ids).
Proof.
  induction us as [|u r IH]; intros s ids Hk; [reflexivity|].
  rewrite add_fold_cons, add_step_eq, (Hk u (or_introl eq_refl)).
  apply IH. intros x Hx. apply Hk. now right.
Qed.

(** Adding the same list a second time inserts nothing, returns the empty
    list and leaves the set, its balance included, as it was. *)
Lemma add_twice (s : UtxoSet.t) us address :
  UtxoSet.add (fst (UtxoSet.add s us address)) us address =
  (fst (UtxoSet.add s us address), []).
Proof.
  rewrite (add_unfold s). cbn [fst]. rewrite add_unfold.
  destruct (add_fold_spec address us s [])
    as [new [E [_ [Hin [Hhas _]]]]].
  rewrite add_fold_known.
  - reflexivity.
  - intros u Hu. cbn [UtxoSet.updateUtxoBalance UtxoSet.utxos].
    rewrite Hhas.
    destruct (has (UtxoSet.utxos s) (UtxoSet.utxoId_of u)) eqn:Hk;
      [reflexivity|]. simpl.
    apply existsb_eqb_In. apply Hin. split; [|exact Hk].
    now apply in_map.
Qed.

(** The in-use ids stay known: [add] only extends [utxos]. *)
Lemma add_step_inUse_known address s ids utxo :
  inUse_known s ->
  inUse_known (fst (UtxoSet.add_step address (s, ids) utxo)).
Proof.
  intros Hk. rewrite add_step_eq.
  destruct (has (UtxoSet.utxos s) (UtxoSet.utxoId_of utxo)); [exact Hk|].
  intros k Hin. cbn [fst UtxoSet.utxos UtxoSet.inUse] in *.
  rewrite has_set, (Hk k Hin). apply orb_true_r.
Qed.

(** Where the in-use ids are known, the guard of [add] and the guard the
    specification words accept the same outpoints, all along the
    [forEach]. *)
Lemma add_fold_as_specified address us :
  forall s ids,
    inUse_known s ->
    fold_left (UtxoSet.add_step address) us (s, ids) =
    fold_left (add_step_as_specified address) us (s, ids).
Proof.
  induction us as [|u r IH]; intros s ids Hk; [reflexivity|].
  cbn [fold_left].
  pose proof (add_step_inUse_known address s ids u Hk) as Hk'.
  assert (E : add_step_as_specified address (s, ids) u =
              UtxoSet.add_step address (s, ids) u).
  { rewrite add_step_eq. cbn [add_step_as_specified].
    destruct (has (UtxoSet.utxos s) (UtxoSet.utxoId_of u)) eqn:Hh;
      [reflexivity|].
    assert (Hu : in_use s (UtxoSet.utxoId_of u) = false).
    { unfold in_use. apply existsb_eqb_notIn. intro F.
      apply Hk in F. congruence. }
    rewrite Hu. reflexivity. }
  rewrite E.
  destruct (UtxoSet.add_step address (s, ids) u) as [s1 ids1].
  apply IH. exact Hk'.
Qed.

(** Outside the invariant, on a state with an id in use that is not the id
    of a known outpoint (no method builds one), the in-use test of [add],
    [indexOf(utxoId) !== utxoId], accepts the outpoint. *)
Lemma add_guard_outside_invariant :
  let s := {| UtxoSet.utxos := [];
              UtxoSet.inUse := ["tx10"];
              UtxoSet.availableBalance := 0;
              UtxoSet.balance := Undefined |} in
  let r := UtxoSet.add s [Api.mkUtxo "tx1" 0 "76a914" 500] "kaspatest:qq0d" in
  ~ inUse_known s
  /\ snd r = ["tx10"]
  /\ has (UtxoSet.utxos (fst r)) "tx10" = true.
Proof.
  cbv zeta. split; [|vm_compute; split; reflexivity].
  intro F. specialize (F "tx10" (or_introl eq_refl)). discriminate F.
Qed.

(** C7. The states of a UtxoSet are those in which every id in use is the
    id of a known outpoint: this holds of the empty set and is kept by
    [add], [enable], [clear] and by reserving the ids [selectUtxos]
    returned, and nothing else writes [utxos] or [inUse]. On every such
    state and every list of incoming outpoints, [add] is the function the
    specification words: it inserts the outpoints whose key is neither
    known nor in use, skips the others without an error, and returns the
    ids it inserted, each once; the keys known afterwards are the old ones
    and those. A second [add] of the same list returns the empty list and
    leaves the set, its balance included, as it was. *)
Theorem add_inserts_unknown_not_in_use :
  (inUse_known UtxoSet.empty
   /\ forall s : UtxoSet.t,
        inUse_known s ->
        (forall us address, inUse_known (fst (UtxoSet.add s us address)))
        /\ (forall ids, inUse_known (UtxoSet.enable s ids))
        /\ inUse_known (UtxoSet.clear s)
        /\ (forall txAmount ids us,
              UtxoSet.selectUtxos s txAmount = Return (ids, us) ->
              inUse_known (UtxoSet.inUse_push s ids)))
  /\ forall (s : UtxoSet.t) (us : list Api.Utxo) (address : string),
       inUse_known s ->
       UtxoSet.add s us address = add_as_specified s us address
       /\ NoDup (snd (UtxoSet.add s us address))
       /\ (forall k, In k (snd (UtxoSet.add s us address)) <->
              In k (map UtxoSet.utxoId_of us)
              /\ has (UtxoSet.utxos s) k = false
              /\ in_use s k = false)
       /\ (forall k,
              has (UtxoSet.utxos (fst (UtxoSet.add s us address))) k = true <->
              has (UtxoSet.utxos s) k = true
              \/ In k (snd (UtxoSet.add s us address)))
       /\ UtxoSet.add (fst (UtxoSet.add s us address)) us address =
            (fst (UtxoSet.add s us address), []).
Proof.
  split.
  - split; [intros k []|].
    intros s Hk. split; [|split; [|split]].
    + intros us address. rewrite add_unfold. cbn [fst].
      destruct (add_fold_spec address us s [])
        as [new [_ [_ [_ [Hhas _]]]]].
      destruct (add_fold_frame address us s []) as [Hi _].
      cbv zeta in *. intros k Hin.
      cbn [UtxoSet.updateUtxoBalance UtxoSet.utxos UtxoSet.inUse] in *.
      rewrite Hi in Hin. rewrite Hhas, (Hk k Hin). reflexivity.
    + intros ids k Hin.
      cbn [UtxoSet.enable UtxoSet.inUse UtxoSet.utxos] in *.
      apply filter_In in Hin. apply Hk. tauto.
    + intros k [].
    + intros txAmount ids us Hs k Hin.
      cbn [UtxoSet.inUse_push UtxoSet.inUse UtxoSet.utxos] in *.
      apply in_app_or in Hin. destruct Hin as [Hin|Hin]; [now apply Hk|].
      apply selectUtxos_success in Hs. destruct Hs as [n [-> _]].
      apply in_map_iff in Hin. destruct Hin as [[k' u] [<- Hin]].
      apply In_firstn in Hin. apply filter_In in Hin.
      destruct Hin as [Hin _].
      apply has_In. apply in_map_iff. now exists (k', u).
  - intros s us address Hk.
    split.
    { unfold UtxoSet.add, add_as_specified.
      now rewrite (add_fold_as_specified address us s [] Hk). }
    pose proof (add_returns_inserted s us address) as H.
    pose proof (add_twice s us address) as Ht.
    destruct (UtxoSet.add s us address) as [s' ids].
    destruct H as [Hnd [Hin [Hhas _]]]. cbn [fst snd] in *.
    split; [exact Hnd|]. split; [|split; [exact Hhas | exact Ht]].
    intro k. rewrite Hin. split.
    + intros [H1 H2]. split; [exact H1|]. split; [exact H2|].
      unfold in_use. apply existsb_eqb_notIn. intro F.
      apply Hk in F. congruence.
    + tauto.
Qed.

Lemma add_inserts_unknown_not_in_use_witness :
  let s := UtxoSet.inUse_push two_utxos ["tx10"] in
  let us := [Api.mkUtxo "tx1" 0 "76a914" 500;
             Api.mkUtxo "tx3" 1 "76a914" 40] in
  inUse_known s
  /\ in_use s "tx10" = true
  /\ UtxoSet.add s us "kaspatest:qq0d" =
       add_as_specified s us "kaspatest:qq0d"
  /\ snd (UtxoSet.add s us "kaspatest:qq0d") = ["tx31"]
  /\ UtxoSet.add (fst (UtxoSet.add s us "kaspatest:qq0d")) us "kaspatest:qq0d"
       = (fst (UtxoSet.add s us "kaspatest:qq0d"), []).
Proof.
  cbv zeta.
  assert (Hk : inUse_known (UtxoSet.inUse_push two_utxos ["tx10"])).
  { intros k [<-|[]]. reflexivity. }
  destruct (proj2 add_inserts_unknown_not_in_use
              (UtxoSet.inUse_push two_utxos ["tx10"])
              [Api.mkUtxo "tx1" 0 "76a914" 500;
               Api.mkUtxo "tx3" 1 "76a914" 40]
              "kaspatest:qq0d" Hk) as [E [_ [_ [_ Ht]]]].
  split; [exact Hk|]. split; [reflexivity|]. split; [exact E|].
  split; [reflexivity | exact Ht].
Defined.

(* --- the balance properties ---------------------------------------- *)

Lemma filter_keys {A : Type} (f : string -> bool) (o : obj A) :
  filter f (keys o) = map fst (filter (fun e => f (fst e)) o).
Proof.
  induction o as [|[k v] r IH]; simpl; [reflexivity|].
  destruct (f k); simpl; now rewrite IH.
Qed.

Lemma fold_satoshis_at (o : obj Bitcore.UnspentOutput) :
  NoDup (keys o) ->
  forall (l : list (string * Bitcore.UnspentOutput)) (acc : Z),
    (forall e, In e l -> In e o) ->
    fold_left (fun prev cur => prev + UtxoSet.satoshis_at o cur)
              (map fst l) acc
    = acc + sum_satoshis (map snd l).
Proof.
  intro Hnd. induction l as [|[k u] r IH]; intros acc Hin; simpl.
  - lia.
  - rewrite IH by (intros e He; apply Hin; now right).
    unfold UtxoSet.satoshis_at.
    rewrite (get_In o k u Hnd) by (apply Hin; now left). lia.
Qed.

(** [updateUtxoBalance] computes the sum of the known outpoints that are
    not in use, and stores it in the property [balance]; the field
    [availableBalance] is not written. *)
Lemma updateUtxoBalance_spec (s : UtxoSet.t) :
  unique_keys s ->
  UtxoSet.balance (UtxoSet.updateUtxoBalance s) = Num (available_sum s)
  /\ UtxoSet.availableBalance (UtxoSet.updateUtxoBalance s)
     = UtxoSet.availableBalance s.
Proof.
  intro Hnd. split; [|reflexivity].
  unfold UtxoSet.updateUtxoBalance. cbn [UtxoSet.balance]. f_equal.
  rewrite filter_keys.
  rewrite (fold_satoshis_at _ Hnd).
  - unfold available_sum, available, in_use. simpl. f_equal. f_equal.
    apply filter_ext. intros [k u]. simpl. apply indexOf_absent.
  - intros e He. apply filter_In in He. tauto.
Qed.

Lemma add_availableBalance (s : UtxoSet.t) us address :
  UtxoSet.availableBalance (fst (UtxoSet.add s us address))
  = UtxoSet.availableBalance s.
Proof.
  rewrite add_unfold. cbn [fst UtxoSet.updateUtxoBalance UtxoSet.availableBalance].
  apply (add_fold_frame address us s []).
Qed.

(** C3, at an input where the code departs from it: after adding one
    outpoint worth 500 to an empty set the field [availableBalance] is still
    0 although the available outpoints sum to 500; the recomputed sum went to
    the property [balance]. After [clear] it is that property that is stale.
    No operation but [clear] writes [availableBalance]. *)
Theorem availableBalance_not_recomputed :
  (let s := fst (UtxoSet.add UtxoSet.empty
                   [Api.mkUtxo "tx1" 0 "76a914" 500] "kaspatest:qq0d") in
   UtxoSet.availableBalance s = 0
   /\ available_sum s = 500
   /\ UtxoSet.balance s = Num 500
   /\ UtxoSet.balance (UtxoSet.clear s) = Num 500
   /\ available_sum (UtxoSet.clear s) = 0)
  /\ (forall s us address,
        UtxoSet.availableBalance (fst (UtxoSet.add s us address))
        = UtxoSet.availableBalance s)
  /\ (forall s,
        UtxoSet.availableBalance (UtxoSet.updateUtxoBalance s)
        = UtxoSet.availableBalance s)
  /\ (forall s ids,
        UtxoSet.availableBalance (UtxoSet.enable s ids)
        = UtxoSet.availableBalance s
        /\ UtxoSet.availableBalance (UtxoSet.inUse_push s ids)
           = UtxoSet.availableBalance s).
Proof.
  split; [vm_compute; repeat split|].
  split; [apply add_availableBalance|].
  split; [reflexivity|]. intros s ids. split; reflexivity.
Qed.

(* --- reserve and release ------------------------------------------- *)

Lemma filter_notin_app (ids l : list string) :
  (forall k, In k ids -> ~ In k l) ->
  filter (fun utxoId => indexOf ids utxoId =? -1) (l ++ ids) = l.
Proof.
  intro Hdisj.
  rewrite filter_app.
  assert (E1 : filter (fun utxoId => indexOf ids utxoId =? -1) l = l).
  { clear -Hdisj. induction l as [|x r IH]; simpl; [reflexivity|].
    rewrite indexOf_absent.
    destruct (existsb (fun y => String.eqb y x) ids) eqn:E.
    - apply existsb_eqb_In in E. exfalso. apply (Hdisj x E). now left.
    - simpl. f_equal. apply IH. intros k Hk F. apply (Hdisj k Hk). now right. }
  assert (E2 : filter (fun utxoId => indexOf ids utxoId =? -1) ids = []).
  { assert (G : forall l', (forall x, In x l' -> In x ids) ->
                  filter (fun utxoId => indexOf ids utxoId =? -1) l' = []).
    { induction l' as [|x r IH]; intro Hsub; simpl; [reflexivity|].
      rewrite indexOf_absent.
      assert (E : existsb (fun y => String.eqb y x) ids = true)
        by (apply existsb_eqb_In, Hsub; now left).
      rewrite E. simpl. apply IH. intros y Hy. apply Hsub. now right. }
    apply G. auto. }
  rewrite E1, E2. apply app_nil_r.
Qed.

(** C8 fails for an id that is already in use: pushing "a" onto
    [inUse = ["a"]] and enabling "a" leaves nothing in use. *)
Lemma reserve_release_drops_id_in_use :
  let s := {| UtxoSet.utxos := [];
              UtxoSet.inUse := ["a"];
              UtxoSet.availableBalance := 0;
              UtxoSet.balance := Undefined |} in
  UtxoSet.inUse (UtxoSet.inUse_push s ["a"]) = ["a"; "a"]
  /\ UtxoSet.inUse (UtxoSet.enable (UtxoSet.inUse_push s ["a"]) ["a"]) = []
  /\ in_use s "a" = true
  /\ in_use (UtxoSet.enable (UtxoSet.inUse_push s ["a"]) ["a"]) "a" = false.
Proof. vm_compute. repeat split. Qed.

(** In general the pair removes the ids from [inUse]. *)
Lemma enable_push_in_use (s : UtxoSet.t) (ids : list string) (k : string) :
  in_use (UtxoSet.enable (UtxoSet.inUse_push s ids) ids) k
  = in_use s k && negb (existsb (fun y => String.eqb y k) ids).
Proof.
  unfold in_use, UtxoSet.enable, UtxoSet.inUse_push. cbn [UtxoSet.inUse].
  rewrite filter_app, existsb_app.
  assert (G : forall l,
    existsb (fun y => String.eqb y k)
      (filter (fun utxoId => indexOf ids utxoId =? -1) l)
    = existsb (fun y => String.eqb y k) l
      && negb (existsb (fun y => String.eqb y k) ids)).
  { induction l as [|x r IH]; simpl; [reflexivity|].
    rewrite indexOf_absent.
    destruct (String.eqb_spec x k) as [F|F].
    - subst x. destruct (existsb (fun y => String.eqb y k) ids) eqn:E; simpl.
      + rewrite IH. apply andb_false_r.
      + now rewrite String.eqb_refl.
    - destruct (existsb (fun y => String.eqb y x) ids); simpl.
      + exact IH.
      + rewrite IH. apply String.eqb_neq in F. now rewrite F. }
  rewrite !G.
  destruct (existsb (fun y => String.eqb y k) ids);
    destruct (existsb (fun y => String.eqb y k) (UtxoSet.inUse s)); reflexivity.
Qed.

(** C8, amended. Pushing onto [inUse] ids none of which is in use and then
    enabling the same ids gives back the very same set: the same [inUse]
    array, the same fields, hence the same available sum. Whatever the ids,
    after the pair an id is in use exactly when it was in use before and is
    not one of them. *)
Theorem reserve_release_roundtrip (s : UtxoSet.t) (ids : list string) :
  ((forall k, In k ids -> ~ In k (UtxoSet.inUse s)) ->
   UtxoSet.enable (UtxoSet.inUse_push s ids) ids = s
   /\ available_sum (UtxoSet.enable (UtxoSet.inUse_push s ids) ids)
      = available_sum s)
  /\ (forall k,
        in_use (UtxoSet.enable (UtxoSet.inUse_push s ids) ids) k
        = in_use s k && negb (existsb (fun y => String.eqb y k) ids)).
Proof.
  split; [|apply enable_push_in_use].
  intro Hdisj.
  assert (E : UtxoSet.enable (UtxoSet.inUse_push s ids) ids = s).
  { unfold UtxoSet.enable, UtxoSet.inUse_push. cbn [UtxoSet.inUse
      UtxoSet.utxos UtxoSet.availableBalance UtxoSet.balance].
    rewrite filter_notin_app by exact Hdisj. now destruct s. }
  rewrite E. auto.
Qed.

Lemma reserve_release_roundtrip_witness :
  UtxoSet.enable (UtxoSet.inUse_push two_utxos ["tx10"]) ["tx10"] = two_utxos
  /\ in_use (UtxoSet.enable (UtxoSet.inUse_push two_utxos ["tx10"]) ["tx10"])
            "tx10" = false.
Proof.
  split.
  - apply (proj1 (reserve_release_roundtrip two_utxos ["tx10"])).
    intros k Hk F. vm_compute in F. exact F.
  - rewrite (proj2 (reserve_release_roundtrip two_utxos ["tx10"]) "tx10").
    reflexivity.
Defined.

End UtxoTheorems.

(* ------------------------------------------------------------------ *)
(** ** The pending transactions *)

Module PendingTheorems.
Import Js JsFacts Spec Fixture.

Lemma total_is_sum (p : Pending.t) : Pending.total p = pending_sum p.
Proof.
  unfold Pending.total, pending_sum.
  assert (G : forall l acc,
    fold_left (fun prev cur => prev + Pending.amount cur) l acc
    = acc + fold_right (fun x a => Pending.amount x + a) 0 l).
  { induction l as [|x r IH]; intro acc; simpl; [lia | rewrite IH; lia]. }
  destruct (values p) as [|x r] eqn:E; [reflexivity|].
  cbn [List.length]. rewrite G.
  destruct (Z.of_nat (S (List.length r)) =? 0) eqn:Z0; [|lia].
  apply Z.eqb_eq in Z0. lia.
Qed.

(** C9 fails on a tracked id: recording [tx_b] under the id of [tx_a]
    returns normally and the entry of [tx_a] is replaced. *)
Lemma add_replaces_tracked_id :
  get (Pending.add [("id1", tx_a)] "id1" tx_b) "id1" = Some tx_b
  /\ get [("id1", tx_a)] "id1" = Some tx_a
  /\ tx_a <> tx_b
  /\ Pending.add [("id1", tx_a)] "id1" tx_b = [("id1", tx_b)].
Proof.
  split; [reflexivity|]. split; [reflexivity|]. split; [discriminate|].
  reflexivity.
Qed.

(** C9, amended. [pending.add(id, tx)] never fails: afterwards [id] maps to
    [tx], whether [id] was fresh (the entry is inserted) or tracked (the
    entry is replaced, in place), and every other id maps to what it mapped
    to before. *)
Theorem add_inserts_or_replaces (p : Pending.t) (id : string) (x : Pending.tx) :
  get (Pending.add p id x) id = Some x
  /\ (forall id', id' <> id -> get (Pending.add p id x) id' = get p id')
  /\ (has p id = true -> keys (Pending.add p id x) = keys p)
  /\ (has p id = false ->
      forall k, In k (keys (Pending.add p id x)) <-> k = id \/ In k (keys p)).
Proof.
  unfold Pending.add. split; [|split; [|split]].
  - rewrite get_set. now rewrite String.eqb_refl.
  - intros id' Hne. rewrite get_set.
    destruct (String.eqb_spec id id') as [E|E]; [congruence | reflexivity].
  - intro H. unfold set. rewrite H. apply UtxoFacts.keys_replace.
  - intros H k. rewrite <- !has_In, has_set, orb_true_iff.
    destruct (String.eqb_spec id k) as [E|E]; split; intros [F|F];
      subst; auto; try discriminate; congruence.
Qed.

Lemma add_inserts_or_replaces_witness :
  keys (Pending.add [("id1", tx_a)] "id1" tx_b) = ["id1"]
  /\ (forall k, In k (keys (Pending.add [("id1", tx_a)] "id2" tx_b)) <->
                k = "id2" \/ In k ["id1"]).
Proof.
  split.
  - exact (proj1 (proj2 (proj2
             (add_inserts_or_replaces [("id1", tx_a)] "id1" tx_b))) eq_refl).
  - exact (proj2 (proj2 (proj2
             (add_inserts_or_replaces [("id1", tx_a)] "id2" tx_b))) eq_refl).
Defined.

End PendingTheorems.

(* ------------------------------------------------------------------ *)
(** ** Wallet: balance, composing, sending *)

Module WalletTheorems.
Import Js JsFacts Spec Fixture.

Section WithCollaborators.
Variable derive :
  AddressManager.deriveType -> Z -> string * AddressManager.PrivateKey.
Variable getUtxos : string -> result (list Api.Utxo).
Variable postTx : string -> result unit.
Variable signTx :
  list Bitcore.UnspentOutput -> string -> Z -> Z -> string ->
  list (option AddressManager.PrivateKey) -> result Wallet.SignedTx.
Variable DEFAULT_FEE : Z.

(** [updateBalance] reads [this.utxoSet.totalBalance], which is
    [undefined]: the balance it stores is [NaN], whatever the wallet. *)
Lemma updateBalance_NaN (w : Wallet.t) :
  Wallet.balance (Wallet.updateBalance w) = NaN.
Proof. reflexivity. Qed.

Lemma updateUtxos_NaN (w w' : Wallet.t) addresses :
  Wallet.updateUtxos getUtxos w addresses = (w', Return tt) ->
  Wallet.balance w' = NaN.
Proof.
  unfold Wallet.updateUtxos.
  destruct (Wallet.promise_all _) as [l|e]; intro H; inv H.
  reflexivity.
Qed.

(** What a successful [composeTx] has done. *)
Lemma composeTx_returns (w w' : Wallet.t) (p : Wallet.TxSend) c :
  Wallet.composeTx derive signTx DEFAULT_FEE w p = (w', Return c) ->
  exists utxoIds utxos tx,
    UtxoSet.selectUtxos (Wallet.utxoSet w) (Wallet.amount p + fee_of DEFAULT_FEE p)
      = Return (utxoIds, utxos)
    /\ c = {| Wallet.c_id := Wallet.id tx;
              Wallet.c_rawTx := Wallet.raw tx;
              Wallet.c_utxoIds := utxoIds;
              Wallet.c_amount := Wallet.amount p + fee_of DEFAULT_FEE p |}
    /\ Wallet.pending w' =
         Pending.add (Wallet.pending w) (Wallet.id tx)
           {| Pending.utxoIds := utxoIds;
              Pending.rawTx := Wallet.raw tx;
              Pending.amount := Wallet.amount p + fee_of DEFAULT_FEE p |}
    /\ Wallet.utxoSet w' =
         UtxoSet.updateUtxoBalance
           (UtxoSet.inUse_push (Wallet.utxoSet w) utxoIds)
    /\ Wallet.balance w' = NaN.
Proof.
  unfold Wallet.composeTx, fee_of. intro H.
  destruct (negb (isSafeInteger (Wallet.amount p))); [discriminate|].
  destruct (UtxoSet.selectUtxos _ _) as [[utxoIds utxos]|e]; [|discriminate].
  match type of H with
  | (let '(_, _) := ?X in _) = _ => destruct X as [am changeAddr]
  end.
  destruct (signTx _ _ _ _ _ _) as [tx|e]; [|discriminate].
  cbn [Wallet.addressManager Wallet.updateBalance Wallet.with_balance
       Wallet.with_utxoSet Wallet.with_pending Wallet.with_addressManager] in H.
  match type of H with
  | (let '(_, _) := ?X in _) = _ => destruct X as [am' a]
  end.
  inv H. exists utxoIds, utxos, tx. repeat split.
Qed.

(** [deleteTx] never completes: either the id is not tracked, or the call
    of [release] throws after the entry has been deleted. *)
Lemma deleteTx_throws (w : Wallet.t) (id : string) :
  exists e, snd (Wallet.deleteTx w id) = Throw e.
Proof.
  unfold Wallet.deleteTx. destruct (get (Wallet.pending w) id);
    eexists; reflexivity.
Qed.

Lemma sendTx_broadcast_failure (w w1 : Wallet.t) (p : Wallet.TxSend) c e :
  Wallet.composeTx derive signTx DEFAULT_FEE w p = (w1, Return c) ->
  postTx (Wallet.c_rawTx c) = Throw e ->
  Wallet.sendTx derive postTx signTx DEFAULT_FEE w p =
    (Wallet.with_pending w1 (delete (Wallet.pending w1) (Wallet.c_id c)),
     Throw (TypeError "this.utxoSet.release is not a function"))
  /\ UtxoSet.inUse (Wallet.utxoSet w1)
     = UtxoSet.inUse (Wallet.utxoSet w) ++ Wallet.c_utxoIds c.
Proof.
  intros Hc Hp. unfold Wallet.sendTx. rewrite Hc, Hp.
  destruct (composeTx_returns _ _ _ _ Hc)
    as [utxoIds [utxos [tx [_ [Ec [Ep [Eu _]]]]]]].
  subst c. cbn [Wallet.c_id Wallet.c_utxoIds].
  assert (G : get (Wallet.pending w1) (Wallet.id tx) =
              Some {| Pending.utxoIds := utxoIds;
                      Pending.rawTx := Wallet.raw tx;
                      Pending.amount := Wallet.amount p + fee_of DEFAULT_FEE p |}).
  { rewrite Ep. unfold Pending.add. now rewrite get_set, String.eqb_refl. }
  unfold Wallet.deleteTx. rewrite G. unfold UtxoSet.release.
  split; [reflexivity|]. rewrite Eu. reflexivity.
Qed.

(** The method that [UtxoSet] does define, [enable], undoes the
    reservation of [composeTx]: applied to the ids it returned, it gives back
    the [inUse] array of before; the known outpoints are those of before;
    and deleting the pending entry gives back the pending transactions of
    before when the id of the transaction was not tracked yet. *)
Lemma composeTx_then_enable (w w1 : Wallet.t) (p : Wallet.TxSend) c :
  Wallet.composeTx derive signTx DEFAULT_FEE w p = (w1, Return c) ->
  UtxoSet.inUse (UtxoSet.enable (Wallet.utxoSet w1) (Wallet.c_utxoIds c))
  = UtxoSet.inUse (Wallet.utxoSet w)
  /\ UtxoSet.utxos (Wallet.utxoSet w1) = UtxoSet.utxos (Wallet.utxoSet w)
  /\ (has (Wallet.pending w) (Wallet.c_id c) = false ->
      array_index (Wallet.c_id c) = None ->
      delete (Wallet.pending w1) (Wallet.c_id c) = Wallet.pending w).
Proof.
  intro Hc.
  destruct (composeTx_returns _ _ _ _ Hc)
    as [utxoIds [utxos [tx [Hs [Ec [Ep [Eu _]]]]]]].
  subst c. rewrite Eu, Ep. cbn [Wallet.c_utxoIds Wallet.c_id UtxoSet.enable
    UtxoSet.inUse UtxoSet.utxos UtxoSet.updateUtxoBalance UtxoSet.inUse_push].
  split; [|split; [reflexivity|]].
  - apply UtxoTheorems.filter_notin_app.
    exact (SelectFacts.selectUtxos_not_inUse _ _ _ _ Hs).
  - intros Hfresh Hidx. unfold Pending.add. now apply delete_set_fresh.
Qed.

End WithCollaborators.

(** C1, on the code: whenever [composeTx] succeeds and the broadcast
    fails, [sendTx] does not re-raise the broadcast error: the handler's
    [deleteTx] deletes the pending entry and then throws a [TypeError] on
    [this.utxoSet.release], which [UtxoSet] does not define. The inputs that
    [composeTx] reserved stay in [inUse], and the pending entry is gone. *)
Theorem sendTx_failed_broadcast_leaves_inputs_reserved
    (derive : AddressManager.deriveType -> Z -> string * AddressManager.PrivateKey)
    (postTx : string -> result unit)
    (signTx : list Bitcore.UnspentOutput -> string -> Z -> Z -> string ->
              list (option AddressManager.PrivateKey) -> result Wallet.SignedTx)
    (DEFAULT_FEE : Z) (w w1 : Wallet.t) (p : Wallet.TxSend)
    (c : Wallet.Composed) (e : exn) :
  Wallet.composeTx derive signTx DEFAULT_FEE w p = (w1, Return c) ->
  postTx (Wallet.c_rawTx c) = Throw e ->
  let r := Wallet.sendTx derive postTx signTx DEFAULT_FEE w p in
  snd r = Throw (TypeError "this.utxoSet.release is not a function")
  /\ UtxoSet.inUse (Wallet.utxoSet (fst r))
     = UtxoSet.inUse (Wallet.utxoSet w) ++ Wallet.c_utxoIds c
  /\ get (Wallet.pending (fst r)) (Wallet.c_id c) = None.
Proof.
  intros Hc Hp r. subst r.
  destruct (sendTx_broadcast_failure derive postTx signTx DEFAULT_FEE
              w w1 p c e Hc Hp) as [E Ei].
  rewrite E. cbn [fst snd Wallet.with_pending Wallet.utxoSet Wallet.pending].
  split; [reflexivity|]. split; [exact Ei|].
  rewrite get_delete. now rewrite String.eqb_refl.
Qed.

Lemma sendTx_failed_broadcast_leaves_inputs_reserved_witness :
  let r := Wallet.sendTx derive postTx_down signTx 0 funded pay100 in
  snd r = Throw (TypeError "this.utxoSet.release is not a function")
  /\ UtxoSet.inUse (Wallet.utxoSet (fst r))
     = UtxoSet.inUse (Wallet.utxoSet funded) ++ ["tx10"]
  /\ get (Wallet.pending (fst r)) "txid1" = None.
Proof.
  exact (sendTx_failed_broadcast_leaves_inputs_reserved
           derive postTx_down signTx 0 funded
           (fst (Wallet.composeTx derive signTx 0 funded pay100)) pay100
           {| Wallet.c_id := "txid1"; Wallet.c_rawTx := "0100";
              Wallet.c_utxoIds := ["tx10"]; Wallet.c_amount := 101 |}
           (Rejected "FetchError") eq_refl eq_refl).
Defined.

(** C2, on the code: the balance that [updateBalance] stores is [NaN] in
    every wallet, because [totalBalance] is not a member of [UtxoSet]. In
    the wallet [funded] (one known outpoint worth 500, nothing pending) the
    known outpoints minus the pending amounts come to 500; and after
    [composeTx] of 100 + 1 the property that [updateUtxoBalance] does
    maintain holds the available sum 0, not the known sum 500. *)
Theorem updateBalance_stores_NaN :
  (forall w : Wallet.t, Wallet.balance (Wallet.updateBalance w) = NaN)
  /\ Wallet.balance funded = NaN
  /\ known_sum (Wallet.utxoSet funded) - pending_sum (Wallet.pending funded)
     = 500
  /\ (let w := fst (Wallet.composeTx derive signTx 0 funded pay100) in
      Wallet.balance w = NaN
      /\ known_sum (Wallet.utxoSet w) - pending_sum (Wallet.pending w) = 399
      /\ sub (UtxoSet.balance (Wallet.utxoSet w))
             (Num (Pending.total (Wallet.pending w))) = Num (-101)).
Proof.
  split; [intro w; reflexivity|]. vm_compute. repeat split.
Qed.

(** C10, on the code: a successful [composeTx] returns [amount + fee] as
    its amount and records a pending entry with that amount under the
    transaction's id; the balance recomputed at its end is [NaN], not the
    former balance less [amount + fee]. *)
Theorem composeTx_records_amount_plus_fee
    (derive : AddressManager.deriveType -> Z -> string * AddressManager.PrivateKey)
    (signTx : list Bitcore.UnspentOutput -> string -> Z -> Z -> string ->
              list (option AddressManager.PrivateKey) -> result Wallet.SignedTx)
    (DEFAULT_FEE : Z) (w w' : Wallet.t) (p : Wallet.TxSend)
    (c : Wallet.Composed) :
  Wallet.composeTx derive signTx DEFAULT_FEE w p = (w', Return c) ->
  Wallet.c_amount c = Wallet.amount p + fee_of DEFAULT_FEE p
  /\ (exists x, get (Wallet.pending w') (Wallet.c_id c) = Some x
                /\ Pending.amount x = Wallet.amount p + fee_of DEFAULT_FEE p)
  /\ Wallet.balance w' = NaN.
Proof.
  intro H.
  destruct (composeTx_returns derive signTx DEFAULT_FEE _ _ _ _ H)
    as [utxoIds [utxos [tx [_ [Ec [Ep [_ Eb]]]]]]].
  subst c. cbn [Wallet.c_amount Wallet.c_id].
  split; [reflexivity|]. split; [|exact Eb].
  rewrite Ep. unfold Pending.add. rewrite get_set, String.eqb_refl.
  eexists. split; reflexivity.
Qed.

Lemma composeTx_records_amount_plus_fee_witness :
  let w' := fst (Wallet.composeTx derive signTx 0 funded pay100) in
  101 = 100 + 1
  /\ (exists x, get (Wallet.pending w') "txid1" = Some x
                /\ Pending.amount x = 100 + 1)
  /\ Wallet.balance w' = NaN.
Proof.
  exact (composeTx_records_amount_plus_fee derive signTx 0 funded
           (fst (Wallet.composeTx derive signTx 0 funded pay100)) pay100
           {| Wallet.c_id := "txid1"; Wallet.c_rawTx := "0100";
              Wallet.c_utxoIds := ["tx10"]; Wallet.c_amount := 101 |}
           eq_refl).
Defined.

End WalletTheorems.

(* ------------------------------------------------------------------ *)
(** ** Address discovery *)

Module DiscoveryTheorems.
Import Js JsFacts DiscoverySpec Fixture.

Lemma In_batch_indices (n offset i : Z) :
  In i (AddressManager.batch_indices n offset) <-> offset <= i < offset + n.
Proof.
  unfold AddressManager.batch_indices. rewrite in_map_iff. split.
  - intros [k [<- Hk]]. apply in_seq in Hk. lia.
  - intro H. exists (Z.to_nat (i - offset)). split; [lia|].
    apply in_seq. lia.
Qed.

Lemma filter_map_comm {A B : Type} (f : B -> bool) (g : A -> B) (l : list A) :
  filter f (map g l) = map g (filter (fun x => f (g x)) l).
Proof.
  induction l as [|x r IH]; simpl; [reflexivity|].
  destruct (f (g x)); simpl; now rewrite IH.
Qed.


(** [maximum x l] is an element of [x :: l] and bounds them all. *)
Lemma maximum_spec (l : list Z) :
  forall x, In (maximum x l) (x :: l)
            /\ forall y, In y (x :: l) -> y <= maximum x l.
Proof.
  unfold maximum. induction l as [|a r IH]; intro x; simpl.
  - split; [now left | intros y [<-|[]]; lia].
  - destruct (IH (Z.max x a)) as [Hin Hub]. split.
    + destruct Hin as [E|Hin]; [|now right; right].
      rewrite <- E. destruct (Z.max_spec x a) as [[_ ->]|[_ ->]]; tauto.
    + intros y [<-|[<-|Hy]].
      * specialize (Hub (Z.max x a) (or_introl eq_refl)). lia.
      * specialize (Hub (Z.max x a) (or_introl eq_refl)). lia.
      * apply Hub. now right.
Qed.

Lemma promise_all_Return {A B : Type} (f : A -> B) (l : list A) :
  Wallet.promise_all (map (fun a => Return (f a)) l) = Return (map f l).
Proof.
  induction l as [|x r IH]; simpl; [reflexivity | now rewrite IH].
Qed.

Section Completed.
(** Every fetch of a transaction history completes: the API answers
    [history a] for the address [a]. *)
Variable derive :
  AddressManager.deriveType -> Z -> string * AddressManager.PrivateKey.
Variable history : string -> list Wallet.Transaction.
Variable getUtxos : string -> result (list Api.Utxo).

Let getTransactions (a : string) : result (list Wallet.Transaction) :=
  Return (history a).

Let address_at (ty : AddressManager.deriveType) (i : Z) : string :=
  fst (derive ty i).

Let derived_at (ty : AddressManager.deriveType) (i : Z) : AddressManager.Derived :=
  {| AddressManager.index := i;
     AddressManager.address := fst (derive ty i);
     AddressManager.privateKey := snd (derive ty i) |}.

Lemma addTransactions_fold (l : list string) :
  forall storage acc,
    snd (fold_left Wallet.addTransactions_step (combine l (map history l))
                   (storage, acc))
    = acc ++ filter (hasTx history) l.
Proof.
  induction l as [|a r IH]; intros storage acc.
  - simpl. now rewrite app_nil_r.
  - cbn [combine map fold_left filter].
    replace (Wallet.addTransactions_step (storage, acc) (a, history a))
      with (if hasTx history a
            then (set storage a (history a), acc ++ [a])
            else (storage, acc)) by reflexivity.
    destruct (hasTx history a).
    + rewrite IH, <- app_assoc. reflexivity.
    + apply IH.
Qed.

(** [addTransactions] returns the addresses that have a history, in the
    order given, and writes [transactionsStorage] only. *)
Lemma addTransactions_completed (w : Wallet.t) (l : list string) :
  snd (Wallet.addTransactions getTransactions w l)
    = Return (filter (hasTx history) l)
  /\ Wallet.addressManager (fst (Wallet.addTransactions getTransactions w l))
     = Wallet.addressManager w.
Proof.
  unfold Wallet.addTransactions, getTransactions.
  rewrite promise_all_Return.
  pose proof (addTransactions_fold l (Wallet.transactionsStorage w) []) as H.
  destruct (fold_left _ _ _) as [storage awt]. simpl in H. subst awt.
  split; reflexivity.
Qed.

Lemma doDiscovery_S fuel threshold w n ty offset :
  Wallet.doDiscovery derive getTransactions (S fuel) threshold w n ty offset =
  let derivedObjs := AddressManager.getAddresses derive n ty offset in
  let addresses := map AddressManager.address derivedObjs in
  match Wallet.addTransactions getTransactions w addresses with
  | (w1, Throw e) => Some (w1, Throw e)
  | (w1, Return addressesWithTx) =>
      if Z.of_nat (List.length addressesWithTx) =? 0
      then Some (w1, Return (offset - (threshold - n) - 1))
      else
        Wallet.doDiscovery derive getTransactions fuel threshold w1
          (fold_left (fun prev cur => Z.max prev (AddressManager.index cur))
             (filter
                (fun obj =>
                   negb (indexOf addressesWithTx (AddressManager.address obj)
                         =? -1))
                derivedObjs) 0 + 1)
          ty (offset + n)
  end.
Proof. reflexivity. Qed.

Lemma addresses_of_batch n ty offset :
  map AddressManager.address (AddressManager.getAddresses derive n ty offset)
  = map (address_at ty) (AddressManager.batch_indices n offset).
Proof. unfold AddressManager.getAddresses. now rewrite map_map. Qed.

Lemma active_addresses n ty offset :
  filter (hasTx history)
         (map (address_at ty) (AddressManager.batch_indices n offset))
  = map (address_at ty) (active_in_batch (active_of derive history ty) n offset).
Proof. unfold active_in_batch. now rewrite filter_map_comm. Qed.

Lemma active_objects n ty offset :
  filter
    (fun obj =>
       negb (indexOf
               (map (address_at ty)
                    (active_in_batch (active_of derive history ty) n offset))
               (AddressManager.address obj) =? -1))
    (AddressManager.getAddresses derive n ty offset)
  = map (derived_at ty)
        (active_in_batch (active_of derive history ty) n offset).
Proof.
  unfold AddressManager.getAddresses. fold (derived_at ty).
  rewrite filter_map_comm. unfold active_in_batch. f_equal.
  apply filter_ext_in. intros i Hi. cbn [derived_at AddressManager.address].
  rewrite indexOf_absent, negb_involutive.
  destruct (active_of derive history ty i) eqn:Ha.
  - apply existsb_eqb_In. apply in_map_iff. exists i.
    split; [reflexivity|]. apply filter_In. now split.
  - apply existsb_eqb_notIn. intro F. apply in_map_iff in F.
    destruct F as [j [Ej Hj]]. apply filter_In in Hj. destruct Hj as [_ Hj].
    unfold active_of in *. unfold address_at in Ej. rewrite Ej in Hj.
    congruence.
Qed.

Lemma fold_max_index ty (l : list Z) (a : Z) :
  fold_left (fun prev cur => Z.max prev (AddressManager.index cur))
            (map (derived_at ty) l) a
  = fold_left Z.max l a.
Proof.
  revert a; induction l as [|x r IH]; intro a; simpl; [reflexivity | apply IH].
Qed.

(** One call of [doDiscovery], from a non-negative offset, is one step of
    the specified algorithm. *)
Lemma doDiscovery_step fuel threshold w n ty offset :
  0 <= offset ->
  Wallet.doDiscovery derive getTransactions (S fuel) threshold w n ty offset =
  let w1 :=
    fst (Wallet.addTransactions getTransactions w
           (map AddressManager.address
                (AddressManager.getAddresses derive n ty offset))) in
  match step (active_of derive history ty) threshold n offset with
  | Terminates highest => Some (w1, Return highest)
  | Continues batchSize offset' =>
      Wallet.doDiscovery derive getTransactions fuel threshold w1
        batchSize ty offset'
  end.
Proof.
  intro Hoff. rewrite doDiscovery_S. cbv zeta.
  destruct (addTransactions_completed w
              (map AddressManager.address
                   (AddressManager.getAddresses derive n ty offset)))
    as [Hr _].
  destruct (Wallet.addTransactions _ _ _) as [w1 r]. cbn [fst snd] in *.
  subst r. rewrite addresses_of_batch, active_addresses.
  rewrite active_objects, fold_max_index, length_map.
  unfold step.
  destruct (active_in_batch (active_of derive history ty) n offset)
    as [|i r] eqn:Hact.
  - reflexivity.
  - replace (Z.of_nat (List.length (i :: r)) =? 0)
      with false by (symmetry; apply Z.eqb_neq; simpl; lia).
    assert (Hi : 0 <= i).
    { assert (In i (active_in_batch (active_of derive history ty) n offset))
        by (rewrite Hact; now left).
      unfold active_in_batch in H. apply filter_In in H.
      destruct H as [H _]. apply In_batch_indices in H. lia. }
    unfold maximum. cbn [fold_left]. rewrite (Z.max_r 0 i Hi).
    f_equal. lia.
Qed.





End Completed.

(** C6. With every fetch completing, one call of [doDiscovery] on a batch
    of [n] addresses from a non-negative [offset] is one step of the
    specified algorithm: with no active address in the batch it returns
    [offset - (threshold - n) - 1], which is -1 on the first call
    ([n = threshold], [offset = 0]); otherwise it calls itself with [n] set
    to 1 + the greatest index among the active addresses of the batch and
    [offset] increased by [n]. *)
Theorem doDiscovery_one_step
    (derive : AddressManager.deriveType -> Z -> string * AddressManager.PrivateKey)
    (history : string -> list Wallet.Transaction)
    (fuel : nat) (threshold : Z) (w : Wallet.t) (n : Z)
    (ty : AddressManager.deriveType) (offset : Z) :
  0 <= offset ->
  let getTransactions := fun a : string => Return (history a) in
  let active := active_of derive history ty in
  let w1 :=
    fst (Wallet.addTransactions getTransactions w
           (map AddressManager.address
                (AddressManager.getAddresses derive n ty offset))) in
  (Wallet.doDiscovery derive getTransactions (S fuel) threshold w n ty offset =
   match step active threshold n offset with
   | Terminates highest => Some (w1, Return highest)
   | Continues batchSize offset' =>
       Wallet.doDiscovery derive getTransactions fuel threshold w1
         batchSize ty offset'
   end)
  /\ (active_in_batch active n offset = [] ->
      Wallet.doDiscovery derive getTransactions (S fuel) threshold w n ty offset
      = Some (w1, Return (offset - (threshold - n) - 1))
      /\ (n = threshold -> offset = 0 -> offset - (threshold - n) - 1 = -1))
  /\ (forall i r,
        active_in_batch active n offset = i :: r ->
        let m := maximum i r in
        Wallet.doDiscovery derive getTransactions (S fuel) threshold w n ty offset
        = Wallet.doDiscovery derive getTransactions fuel threshold w1
            (1 + m) ty (offset + n)
        /\ active m = true
        /\ offset <= m < offset + n
        /\ (forall j, offset <= j < offset + n -> active j = true -> j <= m)).
Proof.
  intros Hoff getTransactions active w1.
  pose proof (doDiscovery_step derive history fuel threshold w n ty offset Hoff)
    as H. cbv zeta in H. fold getTransactions active w1 in H.
  split; [exact H|]. unfold step in H. split.
  - intro E. rewrite E in H. split; [exact H | intros; lia].
  - intros i r E m. rewrite E in H. split; [exact H|].
    destruct (maximum_spec r i) as [Hin Hub]. fold m in Hin, Hub.
    rewrite <- E in Hin, Hub.
    assert (Hm := Hin). unfold active_in_batch in Hm.
    apply filter_In in Hm. destruct Hm as [Hb Ha].
    apply In_batch_indices in Hb.
    split; [exact Ha|]. split; [exact Hb|].
    intros j Hj Haj. apply Hub. apply filter_In.
    split; [now apply In_batch_indices | exact Haj].
Qed.

Lemma doDiscovery_one_step_witness :
  Wallet.doDiscovery derive (getTransactions_at [0; 2; 5]) 2 20 funded 20
    AddressManager.receive 0
  = Wallet.doDiscovery derive (getTransactions_at [0; 2; 5]) 1 20
      (fst (Wallet.addTransactions (getTransactions_at [0; 2; 5]) funded
              (map AddressManager.address
                   (AddressManager.getAddresses derive 20
                      AddressManager.receive 0))))
      6 AddressManager.receive 20.
Proof.
  pose proof (doDiscovery_one_step derive (history_at [0; 2; 5]) 1 20 funded
                20 AddressManager.receive 0 (Z.le_refl 0)) as H.
  cbv zeta in H. destruct H as [_ [_ H]].
  destruct (H 0 [2; 5] eq_refl) as [E _]. exact E.
Defined.


(** Activity in a later batch: with threshold 20 and activity at the
    receive indices 5 and 22 the discovery ends with 28. The size of the
    next batch is taken from the absolute index of the last active address,
    which is its position in the batch only for the first batch. *)
Lemma discovery_after_second_active_batch :
  option_map snd
    (Wallet.doDiscovery derive (getTransactions_at [5; 22]) 4 20
       (Wallet.init derive) 20 AddressManager.receive 0)
  = Some (Return 28)
  /\ highest_active
       (fun i => existsb (Z.eqb i) [5; 22]) 22.
Proof.
  split; [vm_compute; reflexivity|].
  right. split; [lia|]. split; [reflexivity|].
  intros i _ H. simpl in H. rewrite !orb_true_iff in H.
  destruct H as [H|[H|H]]; try discriminate; apply Z.eqb_eq in H; lia.
Qed.





End DiscoveryTheorems.

(* ------------------------------------------------------------------ *)
(** ** UtxoSet: further properties of [add], [length], [selectUtxos],
       [enable], [clear] and [updateUtxoBalance] *)

Module UtxoMore.
Import Js Spec MoreSpec JsFacts SelectFacts UtxoFacts Fixture.

Lemma existsb_keys_has {A : Type} (o : obj A) (k : string) :
  existsb (fun y => String.eqb y k) (keys o) = has o k.
Proof.
  destruct (has o k) eqn:H.
  - apply existsb_eqb_In. now apply has_In.
  - apply existsb_eqb_notIn. now apply has_false_notIn.
Qed.

Lemma In_keys_set {A : Type} (o : obj A) (k : string) (v : A) (x : string) :
  In x (keys (set o k v)) <-> k = x \/ In x (keys o).
Proof.
  rewrite <- !has_In, has_set, orb_true_iff.
  destruct (String.eqb_spec k x); intuition congruence.
Qed.

Lemma fresh_ext (us : list Api.Utxo) :
  forall seen seen',
    (forall x, In x seen <-> In x seen') -> fresh seen us = fresh seen' us.
Proof.
  induction us as [|u r IH]; intros seen seen' H; simpl; [reflexivity|].
  assert (E : existsb (fun y => String.eqb y (UtxoSet.utxoId_of u)) seen
              = existsb (fun y => String.eqb y (UtxoSet.utxoId_of u)) seen').
  { destruct (existsb _ seen') eqn:E'.
    - apply existsb_eqb_In. apply H. now apply existsb_eqb_In.
    - apply existsb_eqb_notIn. intro F. apply H in F.
      apply existsb_eqb_In in F. congruence. }
  rewrite E. destruct (existsb _ seen').
  - now apply IH.
  - f_equal. apply IH. intro x. simpl. rewrite H. tauto.
Qed.

Lemma length_insert_index {A : Type} (o : obj A) n k v :
  List.length (insert_index n k v o) = S (List.length o).
Proof.
  induction o as [|[k0 v0] r IH]; simpl; [reflexivity|].
  destruct (array_index k0) as [m|]; [destruct (m <? n)%N|]; simpl;
    try reflexivity. now rewrite IH.
Qed.

Lemma length_set_absent {A : Type} (o : obj A) k v :
  has o k = false -> List.length (set o k v) = S (List.length o).
Proof.
  intro H. unfold set. rewrite H. destruct (array_index k).
  - apply length_insert_index.
  - rewrite length_app. simpl. lia.
Qed.

Lemma sum_filter_insert_index
    (f : string * Bitcore.UnspentOutput -> bool)
    (o : obj Bitcore.UnspentOutput) n k v :
  sum_satoshis (map snd (filter f (insert_index n k v o)))
  = (if f (k, v) then Bitcore.satoshis v else 0)
    + sum_satoshis (map snd (filter f o)).
Proof.
  induction o as [|[k0 v0] r IH]; simpl.
  - destruct (f (k, v)); simpl; lia.
  - destruct (array_index k0) as [m|]; [destruct (m <? n)%N|]; simpl;
      destruct (f (k, v)) eqn:Fk; destruct (f (k0, v0)) eqn:F0; simpl;
      try rewrite IH; try rewrite Fk; simpl; lia.
Qed.

Lemma sum_filter_set_absent
    (f : string * Bitcore.UnspentOutput -> bool)
    (o : obj Bitcore.UnspentOutput) k v :
  has o k = false ->
  sum_satoshis (map snd (filter f (set o k v)))
  = (if f (k, v) then Bitcore.satoshis v else 0)
    + sum_satoshis (map snd (filter f o)).
Proof.
  intro H. unfold set. rewrite H. destruct (array_index k).
  - apply sum_filter_insert_index.
  - rewrite filter_app, map_app, sum_satoshis_app. simpl.
    destruct (f (k, v)); simpl; lia.
Qed.

Lemma filter_all {A : Type} (l : list A) : filter (fun _ => true) l = l.
Proof. induction l as [|x r IH]; simpl; [reflexivity | now rewrite IH]. Qed.

Lemma sum_set_absent (o : obj Bitcore.UnspentOutput) k v :
  has o k = false ->
  sum_satoshis (values (set o k v))
  = Bitcore.satoshis v + sum_satoshis (values o).
Proof.
  intro H. pose proof (sum_filter_set_absent (fun _ => true) o k v H) as E.
  rewrite !filter_all in E. exact E.
Qed.

(** What the [forEach] of [add] does, all at once. *)
Lemma add_fold_fresh address us :
  forall s ids,
    let s' := fst (add_fold address us (s, ids)) in
    let new := fresh (keys (UtxoSet.utxos s)) us in
    snd (add_fold address us (s, ids)) = ids ++ map UtxoSet.utxoId_of new
    /\ (forall u, In u new ->
          get (UtxoSet.utxos s') (UtxoSet.utxoId_of u)
          = Some (unspent_of address u))
    /\ List.length (UtxoSet.utxos s')
       = (List.length (UtxoSet.utxos s) + List.length new)%nat
    /\ known_sum s' = known_sum s + sum_values new
    /\ available_sum s'
       = available_sum s
         + sum_values
             (filter (fun u => negb (in_use s (UtxoSet.utxoId_of u))) new).
Proof.
  induction us as [|u r IH]; intros s ids; cbv zeta.
  - simpl. rewrite app_nil_r, Nat.add_0_r, !Z.add_0_r.
    repeat split. intros u [].
  - rewrite add_fold_cons, add_step_eq. cbn [fresh].
    rewrite existsb_keys_has.
    destruct (has (UtxoSet.utxos s) (UtxoSet.utxoId_of u)) eqn:Hu.
    + exact (IH s ids).
    + match goal with |- context [add_fold _ r (?s1, ?i1)] =>
        destruct (IH s1 i1) as [E [Hget [Hlen [Hk Ha]]]];
        destruct (add_fold_spec address r s1 i1)
          as [_ [_ [_ [_ [_ [Hold _]]]]]]
      end.
      cbv zeta in *. cbn [UtxoSet.utxos] in *.
      fold (unspent_of address u) in *.
      rewrite (fresh_ext r
                 (keys (set (UtxoSet.utxos s) (UtxoSet.utxoId_of u)
                            (unspent_of address u)))
                 (UtxoSet.utxoId_of u :: keys (UtxoSet.utxos s))) in *
        by (intro x; rewrite In_keys_set; simpl; tauto).
      split; [rewrite E, <- app_assoc; reflexivity|].
      split.
      { intros u' [<-|Hu'].
        - rewrite Hold by (rewrite has_set, String.eqb_refl; reflexivity).
          rewrite get_set, String.eqb_refl. reflexivity.
        - now apply Hget. }
      split.
      { rewrite Hlen, length_set_absent by exact Hu. simpl. lia. }
      split.
      { rewrite Hk. unfold known_sum. cbn [UtxoSet.utxos].
        rewrite sum_set_absent by exact Hu. simpl. lia. }
      rewrite Ha. unfold available_sum, available, in_use.
      cbn [UtxoSet.utxos UtxoSet.inUse].
      rewrite sum_filter_set_absent by exact Hu. cbn [fst filter].
      destruct (existsb (fun y => String.eqb y (UtxoSet.utxoId_of u))
                        (UtxoSet.inUse s)); simpl; lia.
Qed.

(** X1. [add] returns, in the order of the incoming list, the ids of the
    outpoints whose key was not known and is not borne by an earlier
    outpoint of the list; afterwards each of them is known with the data of
    that outpoint and the given address, and every outpoint known before
    keeps its value. [add] touches neither [inUse] nor [availableBalance]. *)
Theorem add_returns_fresh_ids (s : UtxoSet.t) (us : list Api.Utxo)
    (address : string) :
  let s' := fst (UtxoSet.add s us address) in
  let new := fresh (keys (UtxoSet.utxos s)) us in
  snd (UtxoSet.add s us address) = map UtxoSet.utxoId_of new
  /\ (forall u, In u new ->
        get (UtxoSet.utxos s') (UtxoSet.utxoId_of u)
        = Some (unspent_of address u))
  /\ (forall k, has (UtxoSet.utxos s) k = true ->
        get (UtxoSet.utxos s') k = get (UtxoSet.utxos s) k)
  /\ UtxoSet.inUse s' = UtxoSet.inUse s
  /\ UtxoSet.availableBalance s' = UtxoSet.availableBalance s.
Proof.
  cbv zeta. rewrite add_unfold. cbn [fst snd UtxoSet.updateUtxoBalance
    UtxoSet.utxos UtxoSet.inUse UtxoSet.availableBalance].
  destruct (add_fold_fresh address us s []) as [E [Hget _]].
  destruct (add_fold_spec address us s []) as [_ [_ [_ [_ [_ [Hold _]]]]]].
  destruct (add_fold_frame address us s []) as [Hi [Hb _]].
  cbv zeta in *. simpl in E.
  split; [exact E|]. split; [exact Hget|]. split; [exact Hold|].
  split; [exact Hi | exact Hb].
Qed.

(** X2. The [length] of the set after [add] is its length before plus the
    number of ids [add] returned. *)
Theorem length_after_add (s : UtxoSet.t) (us : list Api.Utxo)
    (address : string) :
  UtxoSet.length (fst (UtxoSet.add s us address))
  = UtxoSet.length s
    + Z.of_nat (List.length (snd (UtxoSet.add s us address))).
Proof.
  rewrite add_unfold. cbn [fst snd].
  destruct (add_fold_fresh address us s []) as [E [_ [Hlen _]]].
  cbv zeta in *. simpl in E. rewrite E, length_map.
  unfold UtxoSet.length, keys in *.
  cbn [UtxoSet.updateUtxoBalance UtxoSet.utxos].
  rewrite !length_map, Hlen. lia.
Qed.

(** X3. [add] raises the sum of the known outpoints by the values of the
    outpoints it inserts, and the sum of the available ones by the values
    of those inserted outpoints whose id is not in use. *)
Theorem sums_after_add (s : UtxoSet.t) (us : list Api.Utxo)
    (address : string) :
  let s' := fst (UtxoSet.add s us address) in
  let new := fresh (keys (UtxoSet.utxos s)) us in
  known_sum s' = known_sum s + sum_values new
  /\ available_sum s'
     = available_sum s
       + sum_values
           (filter (fun u => negb (in_use s (UtxoSet.utxoId_of u))) new).
Proof.
  cbv zeta. rewrite add_unfold. cbn [fst].
  destruct (add_fold_fresh address us s []) as [_ [_ [_ [Hk Ha]]]].
  cbv zeta in *. split; [exact Hk | exact Ha].
Qed.

(** X4. The invariant of the set, every outpoint known at most once and
    every id in use known, holds of the empty set and is kept by [add],
    [enable], [updateUtxoBalance], [clear], and by reserving the ids that
    [selectUtxos] returned. *)
Theorem well_formed_kept :
  well_formed UtxoSet.empty
  /\ forall s : UtxoSet.t,
       well_formed s ->
       (forall us address, well_formed (fst (UtxoSet.add s us address)))
       /\ (forall ids, well_formed (UtxoSet.enable s ids))
       /\ well_formed (UtxoSet.updateUtxoBalance s)
       /\ well_formed (UtxoSet.clear s)
       /\ (forall txAmount ids us,
             UtxoSet.selectUtxos s txAmount = Return (ids, us) ->
             well_formed (UtxoSet.inUse_push s ids)).
Proof.
  split.
  { split; [constructor | intros k []]. }
  intros s [Hu Hk]. split; [|split; [|split; [|split]]].
  - intros us address. rewrite add_unfold. cbn [fst].
    destruct (add_fold_spec address us s [])
      as [new [_ [_ [_ [Hhas [_ Hnd]]]]]].
    destruct (add_fold_frame address us s []) as [Hi _].
    cbv zeta in *. split.
    + exact (Hnd Hu).
    + intros k Hin. cbn [UtxoSet.updateUtxoBalance UtxoSet.utxos
        UtxoSet.inUse] in *. rewrite Hi in Hin. rewrite Hhas, (Hk k Hin).
      reflexivity.
  - intro ids. split; [exact Hu|]. intros k Hin.
    cbn [UtxoSet.enable UtxoSet.inUse UtxoSet.utxos] in *.
    apply filter_In in Hin. apply Hk. tauto.
  - split; [exact Hu | exact Hk].
  - split; [constructor | intros k []].
  - intros txAmount ids us Hs. split; [exact Hu|]. intros k Hin.
    cbn [UtxoSet.inUse_push UtxoSet.inUse UtxoSet.utxos] in *.
    apply in_app_or in Hin. destruct Hin as [Hin|Hin]; [now apply Hk|].
    apply selectUtxos_success in Hs. destruct Hs as [n [-> _]].
    apply in_map_iff in Hin. destruct Hin as [[k' u] [<- Hin]].
    apply In_firstn in Hin. apply filter_In in Hin. destruct Hin as [Hin _].
    apply has_In. apply in_map_iff. now exists (k', u).
Qed.

Lemma well_formed_kept_witness :
  well_formed (fst (UtxoSet.add UtxoSet.empty
                      [Api.mkUtxo "tx1" 0 "76a914" 500] "kaspatest:qq0d"))
  /\ well_formed (UtxoSet.inUse_push two_utxos ["tx10"; "tx20"]).
Proof.
  destruct well_formed_kept as [He H]. split.
  - exact (proj1 (H UtxoSet.empty He) _ _).
  - apply (proj2 (proj2 (proj2 (proj2
             (H two_utxos (proj1 (H UtxoSet.empty He) _ _))))) 600
             ["tx10"; "tx20"] (map snd (UtxoSet.utxos two_utxos))).
    reflexivity.
Defined.

(** X5. When every incoming outpoint is already known, [add] returns the
    empty list and changes nothing but the recomputed balance; so adding the
    same list a second time returns the empty list and leaves the set
    exactly as the first call left it. *)
Theorem add_known_outpoints (s : UtxoSet.t) (us : list Api.Utxo)
    (address : string) :
  ((forall u, In u us -> has (UtxoSet.utxos s) (UtxoSet.utxoId_of u) = true) ->
   UtxoSet.add s us address = (UtxoSet.updateUtxoBalance s, []))
  /\ UtxoSet.add (fst (UtxoSet.add s us address)) us address
     = (fst (UtxoSet.add s us address), []).
Proof.
  split.
  - intro Hk. rewrite add_unfold, UtxoTheorems.add_fold_known by exact Hk.
    reflexivity.
  - apply UtxoTheorems.add_twice.
Qed.

Lemma add_known_outpoints_witness :
  UtxoSet.add two_utxos [Api.mkUtxo "tx2" 0 "76a914" 700] "kaspatest:qq0d"
  = (UtxoSet.updateUtxoBalance two_utxos, []).
Proof.
  apply (proj1 (add_known_outpoints two_utxos
                  [Api.mkUtxo "tx2" 0 "76a914" 700] "kaspatest:qq0d")).
  intros u [<-|[]]. reflexivity.
Defined.

(** X6. On a set with unique keys, whose values are non-negative and whose
    available outpoints sum to a safe integer, [updateUtxoBalance] stores,
    in the property [balance], the sum of the values of the known outpoints
    whose id is not in [inUse]; it changes nothing else, and a second call
    changes nothing at all. *)
Theorem updateUtxoBalance_available_sum (s : UtxoSet.t) :
  unique_keys s ->
  exact_sums s ->
  UtxoSet.balance (UtxoSet.updateUtxoBalance s) = Num (available_sum s)
  /\ UtxoSet.utxos (UtxoSet.updateUtxoBalance s) = UtxoSet.utxos s
  /\ UtxoSet.inUse (UtxoSet.updateUtxoBalance s) = UtxoSet.inUse s
  /\ UtxoSet.updateUtxoBalance (UtxoSet.updateUtxoBalance s)
     = UtxoSet.updateUtxoBalance s.
Proof.
  intros Hu _. split; [apply (UtxoTheorems.updateUtxoBalance_spec s Hu)|].
  repeat split.
Qed.

Lemma updateUtxoBalance_available_sum_witness :
  UtxoSet.balance
    (UtxoSet.updateUtxoBalance (UtxoSet.inUse_push two_utxos ["tx10"]))
  = Num 700.
Proof.
  refine (eq_trans
            (proj1 (updateUtxoBalance_available_sum
                      (UtxoSet.inUse_push two_utxos ["tx10"]) _ _)) _).
  - unfold unique_keys. vm_compute.
    constructor; [intros [F|[]]; discriminate|].
    constructor; [intros []|constructor].
  - range_by_evaluation.
  - reflexivity.
Defined.

Lemma NoDup_map_filter {A B : Type} (f : A -> B) (g : A -> bool) (l : list A) :
  NoDup (map f l) -> NoDup (map f (filter g l)).
Proof.
  induction l as [|x r IH]; simpl; intro H; [constructor|].
  inversion H as [|? ? Hx Hr]; subst.
  destruct (g x); simpl; [|now apply IH].
  constructor; [|now apply IH].
  intro F. apply Hx. apply in_map_iff in F. destruct F as [y [E Hy]].
  apply filter_In in Hy. apply in_map_iff. exists y. tauto.
Qed.

Lemma NoDup_firstn {A : Type} (k : nat) (l : list A) :
  NoDup l -> NoDup (firstn k l).
Proof.
  revert k; induction l as [|x r IH]; intros [|k] H; simpl;
    try constructor; inversion H as [|? ? Hx Hr]; subst.
  - intro F. apply Hx. now apply In_firstn in F.
  - now apply IH.
Qed.

(** X7. On a set with unique keys, whose values are non-negative and whose
    available outpoints sum to a safe integer, what [selectUtxos] returns
    for a safe integer is consistent: the ids are pairwise distinct, none of
    them is in use, the outputs are the values stored under the ids, in the
    same order, and their sum reaches the amount asked for and is a safe
    integer. *)
Theorem selectUtxos_returns_available (s : UtxoSet.t) (txAmount : Z)
    (ids : list string) (us : list Bitcore.UnspentOutput) :
  unique_keys s ->
  exact_sums s ->
  safe txAmount ->
  UtxoSet.selectUtxos s txAmount = Return (ids, us) ->
  NoDup ids
  /\ map (get (UtxoSet.utxos s)) ids = map Some us
  /\ (forall k, In k ids -> in_use s k = false)
  /\ txAmount <= sum_satoshis us <= MAX_SAFE_INTEGER.
Proof.
  intros Hu [Hpos Hmax] _ Hs.
  pose proof (selectUtxos_not_inUse s txAmount ids us Hs) as Hni.
  apply selectUtxos_success in Hs.
  destruct Hs as [n [-> [-> [Hge _]]]].
  split; [|split; [|split; [|split]]].
  - rewrite <- firstn_map. apply NoDup_firstn.
    unfold available. apply NoDup_map_filter. exact Hu.
  - rewrite !map_map. apply map_ext_in. intros [k u] Hin. simpl.
    apply In_firstn in Hin. apply filter_In in Hin.
    apply (get_In _ _ _ Hu). tauto.
  - intros k Hk. unfold in_use. apply existsb_eqb_notIn. now apply Hni.
  - exact Hge.
  - eapply Z.le_trans; [|exact Hmax]. unfold available_sum.
    rewrite <- firstn_map. apply sum_satoshis_firstn_le.
    intros u Hin. apply Hpos. apply in_map_iff in Hin.
    destruct Hin as [e [<- Hin]]. apply filter_In in Hin.
    apply in_map. tauto.
Qed.

Lemma selectUtxos_returns_available_witness :
  NoDup ["tx10"; "tx20"]
  /\ map (get (UtxoSet.utxos two_utxos)) ["tx10"; "tx20"]
     = map Some (map snd (UtxoSet.utxos two_utxos)).
Proof.
  assert (Hu : unique_keys two_utxos).
  { unfold unique_keys. vm_compute.
    constructor; [intros [F|[]]; discriminate|].
    constructor; [intros []|constructor]. }
  assert (Hx : exact_sums two_utxos) by range_by_evaluation.
  destruct (selectUtxos_returns_available two_utxos 600 ["tx10"; "tx20"]
              (map snd (UtxoSet.utxos two_utxos)) Hu Hx eq_refl eq_refl)
    as [H1 [H2 _]].
  split; [exact H1 | exact H2].
Defined.

(** X8. For an amount that is not positive, values being non-negative,
    [selectUtxos] never throws and looks at the first entry only: it
    selects that outpoint if it is not in use, and nothing if it is in use
    or if the set is empty. *)
Theorem selectUtxos_nonpositive (s : UtxoSet.t) (txAmount : Z) :
  txAmount <= 0 ->
  (forall u, In u (values (UtxoSet.utxos s)) -> 0 <= Bitcore.satoshis u) ->
  UtxoSet.selectUtxos s txAmount =
  match UtxoSet.utxos s with
  | [] => Return ([], [])
  | (k, u) :: _ => if in_use s k then Return ([], []) else Return ([k], [u])
  end.
Proof.
  intros Hle Hpos. unfold UtxoSet.selectUtxos, entries, in_use.
  destruct (UtxoSet.utxos s) as [|[k u] r] eqn:E; cbn [UtxoSet.select_loop].
  - replace (0 <? txAmount) with false by (symmetry; apply Z.ltb_ge; lia).
    reflexivity.
  - rewrite indexOf_absent.
    assert (Hu : 0 <= Bitcore.satoshis u) by (apply Hpos; simpl; auto).
    destruct (existsb (fun y => String.eqb y k) (UtxoSet.inUse s));
      cbn [negb snd].
    + replace (0 >=? txAmount) with true by (symmetry; apply Z.geb_le; lia).
      replace (0 <? txAmount) with false by (symmetry; apply Z.ltb_ge; lia).
      reflexivity.
    + replace (0 + Bitcore.satoshis u >=? txAmount) with true
        by (symmetry; apply Z.geb_le; lia).
      replace (0 + Bitcore.satoshis u <? txAmount) with false
        by (symmetry; apply Z.ltb_ge; lia).
      reflexivity.
Qed.

Lemma selectUtxos_nonpositive_witness :
  exists u, UtxoSet.selectUtxos two_utxos 0 = Return (["tx10"], [u]).
Proof.
  eexists.
  refine (eq_trans (selectUtxos_nonpositive two_utxos 0 (Z.le_refl 0) _) _).
  - intros u Hu. vm_compute in Hu.
    destruct Hu as [<-|[<-|[]]]; vm_compute; discriminate.
  - reflexivity.
Defined.

(** X9. [enable] removes exactly the given ids from [inUse] and keeps the
    other ids in their order; it leaves the known outpoints alone, does
    nothing for an empty list, and a second call with the same ids changes
    nothing. *)
Theorem enable_removes_the_ids (s : UtxoSet.t) (ids : list string) :
  UtxoSet.inUse (UtxoSet.enable s ids)
  = filter (fun k => negb (existsb (fun y => String.eqb y k) ids))
           (UtxoSet.inUse s)
  /\ (forall k, in_use (UtxoSet.enable s ids) k
                = in_use s k && negb (existsb (fun y => String.eqb y k) ids))
  /\ UtxoSet.utxos (UtxoSet.enable s ids) = UtxoSet.utxos s
  /\ UtxoSet.enable s [] = s
  /\ UtxoSet.enable (UtxoSet.enable s ids) ids = UtxoSet.enable s ids.
Proof.
  assert (E : forall l,
            filter (fun utxoId => indexOf ids utxoId =? -1) l
            = filter (fun k => negb (existsb (fun y => String.eqb y k) ids)) l).
  { intro l. apply filter_ext. intro k. apply indexOf_absent. }
  split; [apply E|]. split; [|split; [reflexivity|split]].
  - intro k. unfold in_use. cbn [UtxoSet.enable UtxoSet.inUse]. rewrite E.
    induction (UtxoSet.inUse s) as [|x r IH]; [reflexivity|].
    cbn [filter existsb].
    destruct (String.eqb_spec x k) as [F|F].
    + subst x. destruct (existsb (fun y => String.eqb y k) ids); simpl.
      * rewrite IH. apply andb_false_r.
      * now rewrite String.eqb_refl.
    + destruct (existsb (fun y => String.eqb y x) ids); simpl.
      * exact IH.
      * apply String.eqb_neq in F. now rewrite F.
  - unfold UtxoSet.enable. simpl. rewrite filter_all. now destruct s.
  - unfold UtxoSet.enable. cbn [UtxoSet.inUse UtxoSet.utxos
      UtxoSet.availableBalance UtxoSet.balance]. f_equal.
    induction (UtxoSet.inUse s) as [|x r IH]; [reflexivity|].
    cbn [filter]. destruct (indexOf ids x =? -1) eqn:F; cbn [filter].
    + rewrite F. now f_equal.
    + exact IH.
Qed.

(** X20. [clear] forgets everything: the set has length 0 and nothing in
    use, a selection for a positive amount fails reporting a balance of 0,
    and a following [add] inserts every outpoint of its list anew (each key
    once). *)
Theorem clear_forgets (s : UtxoSet.t) :
  UtxoSet.length (UtxoSet.clear s) = 0
  /\ UtxoSet.inUse (UtxoSet.clear s) = []
  /\ UtxoSet.availableBalance (UtxoSet.clear s) = 0
  /\ (forall txAmount, 0 < txAmount ->
        UtxoSet.selectUtxos (UtxoSet.clear s) txAmount
        = Throw (Error (ComposeError txAmount 0)))
  /\ (forall us address,
        snd (UtxoSet.add (UtxoSet.clear s) us address)
        = map UtxoSet.utxoId_of (fresh [] us)).
Proof.
  split; [reflexivity|]. split; [reflexivity|]. split; [reflexivity|]. split.
  - intros txAmount Hpos. unfold UtxoSet.selectUtxos. cbn.
    replace (0 <? txAmount) with true by (symmetry; apply Z.ltb_lt; lia).
    reflexivity.
  - intros us address. rewrite add_unfold. cbn [snd].
    exact (proj1 (add_fold_fresh address us (UtxoSet.clear s) [])).
Qed.

End UtxoMore.

(* ------------------------------------------------------------------ *)
(** ** Wallet: further properties of [composeTx], [sendTx], [deleteTx],
       [updateUtxos] and of the pending transactions *)

Module WalletMore.
Import Js Spec MoreSpec JsFacts SelectFacts UtxoFacts Fixture MoreFixture.

(** X10. A [composeTx] that throws has reserved nothing and recorded
    nothing: the UtxoSet, the pending transactions, the balance, the
    current receive address and the transaction storage are those of
    before. *)
Theorem composeTx_throw_keeps_funds
    (derive : AddressManager.deriveType -> Z -> string * AddressManager.PrivateKey)
    (signTx : list Bitcore.UnspentOutput -> string -> Z -> Z -> string ->
              list (option AddressManager.PrivateKey) -> result Wallet.SignedTx)
    (DEFAULT_FEE : Z) (w w' : Wallet.t) (p : Wallet.TxSend) (e : exn) :
  Wallet.composeTx derive signTx DEFAULT_FEE w p = (w', Throw e) ->
  Wallet.utxoSet w' = Wallet.utxoSet w
  /\ Wallet.pending w' = Wallet.pending w
  /\ Wallet.balance w' = Wallet.balance w
  /\ Wallet.receiveAddress w' = Wallet.receiveAddress w
  /\ Wallet.transactionsStorage w' = Wallet.transactionsStorage w.
Proof.
  unfold Wallet.composeTx. intro H.
  destruct (negb (isSafeInteger (Wallet.amount p))); [inv H; auto 6|].
  destruct (UtxoSet.selectUtxos _ _) as [[utxoIds utxos]|e0]; [|inv H; auto 6].
  match type of H with
  | (let '(_, _) := ?X in _) = _ => destruct X as [am changeAddr]
  end.
  destruct (signTx _ _ _ _ _ _) as [tx|e0]; [|inv H; cbn; auto 6].
  cbn [Wallet.addressManager Wallet.updateBalance Wallet.with_balance
       Wallet.with_utxoSet Wallet.with_pending Wallet.with_addressManager] in H.
  match type of H with
  | (let '(_, _) := ?X in _) = _ => destruct X as [am' a]
  end.
  discriminate.
Qed.

Lemma composeTx_throw_keeps_funds_witness :
  Wallet.utxoSet (fst (Wallet.composeTx derive signTx 0 funded pay1000))
  = Wallet.utxoSet funded
  /\ Wallet.pending (fst (Wallet.composeTx derive signTx 0 funded pay1000))
     = Wallet.pending funded.
Proof.
  destruct (composeTx_throw_keeps_funds derive signTx 0 funded
              (fst (Wallet.composeTx derive signTx 0 funded pay1000)) pay1000
              (Error (ComposeError 1001 500)) eq_refl) as [H1 [H2 _]].
  split; [exact H1 | exact H2].
Defined.

(** X11. [composeTx] rejects an amount that is not a safe integer with
    "Amount too large", before looking at the funds; and when, the values
    being non-negative and the amount, the fee, amount + fee and the sum of
    the available outpoints safe integers, the available outpoints sum to
    less than amount + fee, it throws the compose error carrying amount +
    fee and that sum. In both cases the wallet is left exactly as it
    was. *)
Theorem composeTx_rejects
    (derive : AddressManager.deriveType -> Z -> string * AddressManager.PrivateKey)
    (signTx : list Bitcore.UnspentOutput -> string -> Z -> Z -> string ->
              list (option AddressManager.PrivateKey) -> result Wallet.SignedTx)
    (DEFAULT_FEE : Z) (w : Wallet.t) (p : Wallet.TxSend) :
  (isSafeInteger (Wallet.amount p) = false ->
   Wallet.composeTx derive signTx DEFAULT_FEE w p
   = (w, Throw (Error AmountTooLarge)))
  /\ (isSafeInteger (Wallet.amount p) = true ->
      safe (fee_of DEFAULT_FEE p) ->
      safe (Wallet.amount p + fee_of DEFAULT_FEE p) ->
      exact_sums (Wallet.utxoSet w) ->
      available_sum (Wallet.utxoSet w) < Wallet.amount p + fee_of DEFAULT_FEE p ->
      Wallet.composeTx derive signTx DEFAULT_FEE w p
      = (w, Throw (Error (ComposeError (Wallet.amount p + fee_of DEFAULT_FEE p)
                                       (available_sum (Wallet.utxoSet w)))))).
Proof.
  unfold Wallet.composeTx, fee_of. split.
  - intros ->. reflexivity.
  - intros -> _ _ [Hpos _] Hlt. cbn [negb].
    now rewrite (selectUtxos_insufficient _ _ Hpos Hlt).
Qed.

Lemma composeTx_rejects_witness :
  Wallet.composeTx derive signTx 0 funded pay1000
  = (funded, Throw (Error (ComposeError 1001 500)))
  /\ Wallet.composeTx derive signTx 0 funded pay_unsafe
     = (funded, Throw (Error AmountTooLarge)).
Proof.
  split.
  - refine (eq_trans (proj2 (composeTx_rejects derive signTx 0 funded pay1000)
                        eq_refl eq_refl eq_refl _ _) _).
    + range_by_evaluation.
    + vm_compute. reflexivity.
    + reflexivity.
  - exact (proj1 (composeTx_rejects derive signTx 0 funded pay_unsafe) eq_refl).
Defined.

Section WithCollaborators.
Variable derive :
  AddressManager.deriveType -> Z -> string * AddressManager.PrivateKey.
Variable signTx :
  list Bitcore.UnspentOutput -> string -> Z -> Z -> string ->
  list (option AddressManager.PrivateKey) -> result Wallet.SignedTx.
Variable DEFAULT_FEE : Z.

Lemma composeTx_reserves (w w1 : Wallet.t) (p : Wallet.TxSend) c :
  Wallet.composeTx derive signTx DEFAULT_FEE w p = (w1, Return c) ->
  UtxoSet.inUse (Wallet.utxoSet w1)
    = UtxoSet.inUse (Wallet.utxoSet w) ++ Wallet.c_utxoIds c
  /\ UtxoSet.utxos (Wallet.utxoSet w1) = UtxoSet.utxos (Wallet.utxoSet w)
  /\ (forall k, In k (Wallet.c_utxoIds c) ->
                ~ In k (UtxoSet.inUse (Wallet.utxoSet w))).
Proof.
  intro Hc.
  destruct (WalletTheorems.composeTx_returns _ _ _ _ _ _ _ Hc)
    as [utxoIds [utxos [tx [Hs [Ec [_ [Eu _]]]]]]].
  subst c. rewrite Eu. cbn [Wallet.c_utxoIds UtxoSet.updateUtxoBalance
    UtxoSet.inUse_push UtxoSet.inUse UtxoSet.utxos].
  split; [reflexivity|]. split; [reflexivity|].
  exact (selectUtxos_not_inUse _ _ _ _ Hs).
Qed.

End WithCollaborators.

(** X12. No outpoint is spent twice: the outpoints that a successful
    [composeTx] returns are in use afterwards, and a following successful
    [composeTx] returns none of them. *)
Theorem composeTx_never_reselects
    (derive : AddressManager.deriveType -> Z -> string * AddressManager.PrivateKey)
    (signTx : list Bitcore.UnspentOutput -> string -> Z -> Z -> string ->
              list (option AddressManager.PrivateKey) -> result Wallet.SignedTx)
    (DEFAULT_FEE : Z) (w w1 w2 : Wallet.t) (p p' : Wallet.TxSend)
    (c c' : Wallet.Composed) :
  Wallet.composeTx derive signTx DEFAULT_FEE w p = (w1, Return c) ->
  Wallet.composeTx derive signTx DEFAULT_FEE w1 p' = (w2, Return c') ->
  (forall k, In k (Wallet.c_utxoIds c) -> in_use (Wallet.utxoSet w1) k = true)
  /\ (forall k, In k (Wallet.c_utxoIds c) -> ~ In k (Wallet.c_utxoIds c'))
  /\ (forall k, In k (Wallet.c_utxoIds c) -> in_use (Wallet.utxoSet w2) k = true).
Proof.
  intros H1 H2.
  destruct (composeTx_reserves _ _ _ _ _ _ _ H1) as [E1 [_ _]].
  destruct (composeTx_reserves _ _ _ _ _ _ _ H2) as [E2 [_ N2]].
  split; [|split].
  - intros k Hk. unfold in_use. apply existsb_eqb_In. rewrite E1.
    apply in_or_app. now right.
  - intros k Hk F. apply (N2 k F). rewrite E1. apply in_or_app. now right.
  - intros k Hk. unfold in_use. apply existsb_eqb_In. rewrite E2, E1.
    apply in_or_app. left. apply in_or_app. now right.
Qed.

Lemma composeTx_never_reselects_witness :
  ~ In "tx10"
      (Wallet.c_utxoIds
         {| Wallet.c_id := "txid1"; Wallet.c_rawTx := "0100";
            Wallet.c_utxoIds := ["tx20"]; Wallet.c_amount := 101 |}).
Proof.
  refine (proj1 (proj2
            (composeTx_never_reselects derive signTx 0 funded2
               funded2_paid funded2_paid_twice pay100 pay100
               {| Wallet.c_id := "txid1"; Wallet.c_rawTx := "0100";
                  Wallet.c_utxoIds := ["tx10"]; Wallet.c_amount := 101 |}
               {| Wallet.c_id := "txid1"; Wallet.c_rawTx := "0100";
                  Wallet.c_utxoIds := ["tx20"]; Wallet.c_amount := 101 |}
               _ _)) "tx10" _).
  - vm_compute. reflexivity.
  - vm_compute. reflexivity.
  - now left.
Defined.

Lemma filter_andb {A : Type} (f g : A -> bool) (l : list A) :
  filter (fun x => f x && g x) l = filter g (filter f l).
Proof.
  induction l as [|x r IH]; simpl; [reflexivity|].
  destruct (f x); simpl; [destruct (g x); now rewrite IH | exact IH].
Qed.

Lemma filter_not_in_prefix {U : Type} (l : list (string * U)) :
  forall k,
    NoDup (map fst l) ->
    filter (fun e => negb (existsb (fun y => String.eqb y (fst e))
                                   (map fst (firstn k l)))) l
    = skipn k l.
Proof.
  induction l as [|x r IH]; intros k Hnd.
  - now destruct k.
  - inversion Hnd as [|? ? Hx Hr]; subst. destruct k as [|k].
    + simpl. f_equal. apply UtxoMore.filter_all.
    + cbn [firstn map skipn filter existsb]. rewrite String.eqb_refl.
      cbn [orb negb]. rewrite <- (IH k Hr). apply filter_ext_in.
      intros e He. f_equal.
      destruct (String.eqb_spec (fst x) (fst e)) as [F|F]; [|reflexivity].
      exfalso. apply Hx. rewrite F. now apply in_map.
Qed.

(** After reserving the first [k] available entries, the available
    entries are the remaining ones. *)
Lemma available_after_push (s : UtxoSet.t) (k : nat) :
  unique_keys s ->
  available (UtxoSet.inUse_push s (map fst (firstn k (available s))))
  = skipn k (available s).
Proof.
  intro Hu. rewrite <- (filter_not_in_prefix (available s) k)
    by (unfold available; apply UtxoMore.NoDup_map_filter; exact Hu).
  unfold available at 1 4. unfold in_use.
  cbn [UtxoSet.inUse_push UtxoSet.inUse UtxoSet.utxos].
  rewrite <- filter_andb. apply filter_ext. intro e.
  rewrite existsb_app, negb_orb. reflexivity.
Qed.

(** X13. On a set with unique keys, whose values are non-negative and whose
    available outpoints sum to a safe integer, a successful [composeTx] for
    a safe fee and a safe amount + fee takes the whole value of the selected
    outpoints out of the available sum; that value is at least amount + fee
    and at most the available sum; the recomputed [balance] of the UtxoSet
    is the new available sum, the new set is in the same range, and the
    known outpoints keep their sum. *)
Theorem composeTx_debits_selected
    (derive : AddressManager.deriveType -> Z -> string * AddressManager.PrivateKey)
    (signTx : list Bitcore.UnspentOutput -> string -> Z -> Z -> string ->
              list (option AddressManager.PrivateKey) -> result Wallet.SignedTx)
    (DEFAULT_FEE : Z) (w w1 : Wallet.t) (p : Wallet.TxSend)
    (c : Wallet.Composed) :
  unique_keys (Wallet.utxoSet w) ->
  exact_sums (Wallet.utxoSet w) ->
  safe (fee_of DEFAULT_FEE p) ->
  safe (Wallet.amount p + fee_of DEFAULT_FEE p) ->
  Wallet.composeTx derive signTx DEFAULT_FEE w p = (w1, Return c) ->
  exists us,
    UtxoSet.selectUtxos (Wallet.utxoSet w)
      (Wallet.amount p + fee_of DEFAULT_FEE p) = Return (Wallet.c_utxoIds c, us)
    /\ Wallet.amount p + fee_of DEFAULT_FEE p <= sum_satoshis us
        <= available_sum (Wallet.utxoSet w)
    /\ exact_sums (Wallet.utxoSet w1)
    /\ available_sum (Wallet.utxoSet w1)
       = available_sum (Wallet.utxoSet w) - sum_satoshis us
    /\ UtxoSet.balance (Wallet.utxoSet w1)
       = Num (available_sum (Wallet.utxoSet w) - sum_satoshis us)
    /\ known_sum (Wallet.utxoSet w1) = known_sum (Wallet.utxoSet w).
Proof.
  intros Hu [Hpos Hmax] _ _ Hc.
  destruct (WalletTheorems.composeTx_returns _ _ _ _ _ _ _ Hc)
    as [utxoIds [utxos [tx [Hs [Ec [_ [Eu _]]]]]]].
  subst c. cbn [Wallet.c_utxoIds]. exists utxos.
  split; [exact Hs|].
  destruct (selectUtxos_success _ _ _ _ Hs) as [k [Ei [Eus [Hge _]]]].
  assert (Hle : sum_satoshis utxos <= available_sum (Wallet.utxoSet w)).
  { rewrite Eus. rewrite <- firstn_map. unfold available_sum.
    apply sum_satoshis_firstn_le.
    intros u Hin. apply Hpos. apply in_map_iff in Hin.
    destruct Hin as [e [<- Hin]]. apply filter_In in Hin.
    apply in_map. tauto. }
  split; [split; [exact Hge | exact Hle]|].
  assert (Ea : available_sum (Wallet.utxoSet w1)
               = available_sum (Wallet.utxoSet w) - sum_satoshis utxos).
  { rewrite Eu. unfold available_sum at 1.
    change (available (UtxoSet.updateUtxoBalance
                         (UtxoSet.inUse_push (Wallet.utxoSet w) utxoIds)))
      with (available (UtxoSet.inUse_push (Wallet.utxoSet w) utxoIds)).
    rewrite Ei, (available_after_push _ k Hu), Eus.
    unfold available_sum.
    rewrite <- (firstn_skipn k (available (Wallet.utxoSet w))) at 2.
    rewrite map_app, sum_satoshis_app. lia. }
  assert (H0 : 0 <= sum_satoshis utxos).
  { apply (sum_satoshis_firstn_le utxos 0).
    intros u Hin. apply Hpos. rewrite Eus in Hin. apply in_map_iff in Hin.
    destruct Hin as [e [<- Hin]]. apply In_firstn in Hin.
    apply filter_In in Hin. apply in_map. tauto. }
  split.
  { split; [rewrite Eu; exact Hpos | lia]. }
  split; [exact Ea|]. split; [|now rewrite Eu].
  rewrite <- Ea, Eu.
  apply (UtxoTheorems.updateUtxoBalance_spec
           (UtxoSet.inUse_push (Wallet.utxoSet w) utxoIds)).
  exact Hu.
Qed.

Lemma composeTx_debits_selected_witness :
  exists us,
    UtxoSet.selectUtxos (Wallet.utxoSet funded2) 101 = Return (["tx10"], us)
    /\ available_sum (Wallet.utxoSet funded2_paid)
       = available_sum (Wallet.utxoSet funded2) - sum_satoshis us.
Proof.
  assert (Hu : unique_keys (Wallet.utxoSet funded2)).
  { unfold unique_keys. vm_compute.
    constructor; [intros [F|[]]; discriminate|].
    constructor; [intros []|constructor]. }
  assert (Hc : Wallet.composeTx derive signTx 0 funded2 pay100
               = (funded2_paid,
                  Return {| Wallet.c_id := "txid1"; Wallet.c_rawTx := "0100";
                            Wallet.c_utxoIds := ["tx10"];
                            Wallet.c_amount := 101 |}))
    by (vm_compute; reflexivity).
  assert (Hx : exact_sums (Wallet.utxoSet funded2)) by range_by_evaluation.
  destruct (composeTx_debits_selected derive signTx 0 funded2 funded2_paid
              pay100 _ Hu Hx eq_refl eq_refl Hc) as [us [H1 [_ [_ [H2 _]]]]].
  exists us. split; [exact H1 | exact H2].
Defined.



(** X15. [deleteTx] of an id that is not tracked throws a [TypeError] and
    leaves the wallet as it was; of a tracked id it removes that pending
    entry and nothing else before it throws. It never returns normally. *)
Theorem deleteTx_outcomes
    (w : Wallet.t) (id : string) :
  (exists e, snd (Wallet.deleteTx w id) = Throw (TypeError e))
  /\ (get (Wallet.pending w) id = None -> fst (Wallet.deleteTx w id) = w)
  /\ (forall x, get (Wallet.pending w) id = Some x ->
        let w' := fst (Wallet.deleteTx w id) in
        get (Wallet.pending w') id = None
        /\ (forall id', id' <> id ->
              get (Wallet.pending w') id' = get (Wallet.pending w) id')
        /\ Wallet.utxoSet w' = Wallet.utxoSet w
        /\ Wallet.balance w' = Wallet.balance w
        /\ Wallet.addressManager w' = Wallet.addressManager w).
Proof.
  unfold Wallet.deleteTx. split; [|split].
  - destruct (get (Wallet.pending w) id); eexists; reflexivity.
  - intros ->. reflexivity.
  - intros x ->. cbn. split; [|split; [|auto]].
    + rewrite get_delete. now rewrite String.eqb_refl.
    + intros id' Hne. rewrite get_delete.
      destruct (String.eqb_spec id id'); [congruence | reflexivity].
Qed.

Lemma deleteTx_outcomes_witness :
  fst (Wallet.deleteTx funded "txid1") = funded
  /\ get (Wallet.pending (fst (Wallet.deleteTx funded2_paid "txid1"))) "txid1"
     = None.
Proof.
  split.
  - exact (proj1 (proj2 (deleteTx_outcomes funded "txid1")) eq_refl).
  - refine (proj1 (proj2 (proj2 (deleteTx_outcomes funded2_paid "txid1"))
                     _ _)).
    vm_compute. reflexivity.
Defined.

Lemma pending_sum_insert_index (p : Pending.t) n k x :
  pending_sum (insert_index n k x p) = Pending.amount x + pending_sum p.
Proof.
  unfold pending_sum, values.
  induction p as [|[k0 x0] r IH]; simpl; [reflexivity|].
  destruct (array_index k0) as [m|]; [destruct (m <? n)%N|]; simpl;
    try rewrite IH; lia.
Qed.

Lemma pending_sum_replace (p : Pending.t) k x old :
  get p k = Some old ->
  pending_sum (replace p k x) = pending_sum p - Pending.amount old + Pending.amount x.
Proof.
  unfold pending_sum, values.
  induction p as [|[k0 x0] r IH]; simpl; [discriminate|].
  destruct (String.eqb k0 k); simpl.
  - intro H. inv H. lia.
  - intro H. rewrite (IH H). lia.
Qed.

(** X16. The pending amount is 0 when nothing is tracked. Where the
    amounts tracked are non-negative and sum to a safe integer, before and
    after: recording a transaction under a fresh id raises the pending
    amount by the amount of the transaction, and recording under a tracked
    id replaces the amount of the old entry by that of the new one. *)
Theorem pending_amount_after_add (p : Pending.t) (id : string)
    (x : Pending.tx) :
  Pending.total [] = 0
  /\ (exact_pending p ->
      exact_pending (Pending.add p id x) ->
      (get p id = None ->
       Pending.total (Pending.add p id x) = Pending.total p + Pending.amount x)
      /\ (forall old, get p id = Some old ->
            Pending.total (Pending.add p id x)
            = Pending.total p - Pending.amount old + Pending.amount x)).
Proof.
  rewrite !PendingTheorems.total_is_sum. unfold Pending.add, set, has.
  split; [reflexivity|]. intros _ _. split.
  - intros ->. destruct (array_index id).
    + rewrite pending_sum_insert_index. lia.
    + unfold pending_sum, values. rewrite map_app, fold_right_app. simpl.
      induction p as [|[k0 x0] r IH]; simpl; lia.
  - intros old H. rewrite H. now apply pending_sum_replace.
Qed.

Lemma pending_amount_after_add_witness :
  Pending.total (Pending.add [("id1", tx_a)] "id2" tx_b) = 101 + 7
  /\ Pending.total (Pending.add [("id1", tx_a)] "id1" tx_b) = 101 - 101 + 7.
Proof.
  assert (Hp : exact_pending [("id1", tx_a)]) by range_by_evaluation.
  split.
  - refine (proj1 (proj2 (pending_amount_after_add [("id1", tx_a)] "id2" tx_b)
                     Hp _) eq_refl).
    range_by_evaluation.
  - refine (proj2 (proj2 (pending_amount_after_add [("id1", tx_a)] "id1" tx_b)
                     Hp _) tx_a eq_refl).
    range_by_evaluation.
Defined.

End WalletMore.

(* ------------------------------------------------------------------ *)
(** ** Refreshing from the API: [updateUtxos], [addTransactions] and the
       scan of [addressDiscovery] *)

Module RefreshMore.
Import Js Spec MoreSpec JsFacts UtxoFacts DiscoverySpec Fixture MoreFixture.









Lemma addTransactions_fold_storage
    (history : string -> list Wallet.Transaction) (l : list string) :
  forall storage acc,
    let r := fold_left Wallet.addTransactions_step (combine l (map history l))
                       (storage, acc) in
    snd r = acc ++ filter (hasTx history) l
    /\ forall a,
         get (fst r) a
         = if existsb (fun y => String.eqb y a) l && hasTx history a
           then Some (history a) else get storage a.
Proof.
  induction l as [|x r IH]; intros storage acc; cbv zeta.
  - simpl. rewrite app_nil_r. auto.
  - cbn [combine map fold_left filter existsb].
    replace (Wallet.addTransactions_step (storage, acc) (x, history x))
      with (if hasTx history x
            then (set storage x (history x), acc ++ [x])
            else (storage, acc)) by reflexivity.
    destruct (hasTx history x) eqn:Hx.
    + destruct (IH (set storage x (history x)) (acc ++ [x])) as [E G].
      cbv zeta in *. split; [rewrite E, <- app_assoc; reflexivity|].
      intro a. rewrite G, get_set.
      destruct (String.eqb_spec x a) as [F|F].
      * subst a. rewrite Hx. cbn [orb andb].
        destruct (existsb _ r); reflexivity.
      * reflexivity.
    + destruct (IH storage acc) as [E G]. cbv zeta in *.
      split; [exact E|]. intro a. rewrite G.
      destruct (String.eqb_spec x a) as [F|F]; [|reflexivity].
      subst a. rewrite Hx, !andb_false_r. reflexivity.
Qed.

(** X18. When every fetch completes, [addTransactions] returns the
    addresses that have at least one transaction, in the order given, stores
    the history of each of them under its address, and leaves the entry of
    every other address as it was; it touches neither the UtxoSet, nor the
    pending transactions, the balance or the address manager. *)
Theorem addTransactions_stores_histories
    (history : string -> list Wallet.Transaction)
    (w : Wallet.t) (addresses : list string) :
  let r := Wallet.addTransactions (fun a => Return (history a)) w addresses in
  snd r = Return (filter (hasTx history) addresses)
  /\ (forall a,
        get (Wallet.transactionsStorage (fst r)) a
        = if existsb (fun y => String.eqb y a) addresses && hasTx history a
          then Some (history a)
          else get (Wallet.transactionsStorage w) a)
  /\ Wallet.utxoSet (fst r) = Wallet.utxoSet w
  /\ Wallet.pending (fst r) = Wallet.pending w
  /\ Wallet.balance (fst r) = Wallet.balance w
  /\ Wallet.addressManager (fst r) = Wallet.addressManager w.
Proof.
  cbv zeta. unfold Wallet.addTransactions.
  rewrite DiscoveryTheorems.promise_all_Return.
  destruct (addTransactions_fold_storage history addresses
              (Wallet.transactionsStorage w) []) as [E G].
  cbv zeta in *. destruct (fold_left _ _ _) as [storage awt].
  cbn [fst snd] in *. subst awt. repeat split. exact G.
Qed.

Lemma addTransactions_frame getTransactions (w : Wallet.t) addresses :
  let w' := fst (Wallet.addTransactions getTransactions w addresses) in
  Wallet.utxoSet w' = Wallet.utxoSet w
  /\ Wallet.pending w' = Wallet.pending w
  /\ Wallet.balance w' = Wallet.balance w
  /\ Wallet.addressManager w' = Wallet.addressManager w
  /\ Wallet.receiveAddress w' = Wallet.receiveAddress w.
Proof.
  cbv zeta. unfold Wallet.addTransactions.
  destruct (Wallet.promise_all _); [|auto 6].
  destruct (fold_left _ _ _). auto 6.
Qed.

Lemma doDiscovery_frame derive getTransactions fuel :
  forall threshold w n ty offset w' r,
    Wallet.doDiscovery derive getTransactions fuel threshold w n ty offset
      = Some (w', r) ->
    Wallet.utxoSet w' = Wallet.utxoSet w
    /\ Wallet.pending w' = Wallet.pending w
    /\ Wallet.balance w' = Wallet.balance w
    /\ Wallet.addressManager w' = Wallet.addressManager w
    /\ Wallet.receiveAddress w' = Wallet.receiveAddress w.
Proof.
  induction fuel as [|fuel IH]; intros threshold w n ty offset w' r H;
    [discriminate|].
  cbn [Wallet.doDiscovery] in H.
  pose proof (addTransactions_frame getTransactions w
                (map AddressManager.address
                     (AddressManager.getAddresses derive n ty offset))) as F.
  cbv zeta in F.
  destruct (Wallet.addTransactions _ _ _) as [w1 [awt|e]]; cbn [fst] in F.
  - destruct (_ =? 0).
    + inv H. exact F.
    + apply IH in H. destruct F as [F1 [F2 [F3 [F4 F5]]]].
      destruct H as [H1 [H2 [H3 [H4 H5]]]].
      rewrite H1, H2, H3, H4, H5. auto 6.
  - inv H. exact F.
Qed.

(** X19. The scan of [addressDiscovery] moves no funds and no cursor:
    whatever [doDiscovery] ends with, the UtxoSet, the pending transactions,
    the balance, the cursors and the current receive address are those of
    before. When the scan of either chain ends with a
    rejection, [addressDiscovery] ends with that rejection, before any cursor
    is advanced and before any UTXO is fetched. *)
Theorem discovery_scan_frame
    (derive : AddressManager.deriveType -> Z -> string * AddressManager.PrivateKey)
    (getUtxos : string -> result (list Api.Utxo))
    (getTransactions : string -> result (list Wallet.Transaction))
    (fuel : nat) (threshold : Z) (w : Wallet.t) :
  (forall n ty offset w' r,
      Wallet.doDiscovery derive getTransactions fuel threshold w n ty offset
        = Some (w', r) ->
      Wallet.utxoSet w' = Wallet.utxoSet w
      /\ Wallet.pending w' = Wallet.pending w
      /\ Wallet.balance w' = Wallet.balance w
      /\ Wallet.addressManager w' = Wallet.addressManager w
      /\ Wallet.receiveAddress w' = Wallet.receiveAddress w)
  /\ (forall w1 e,
        Wallet.doDiscovery derive getTransactions fuel threshold w threshold
          AddressManager.receive 0 = Some (w1, Throw e) ->
        Wallet.addressDiscovery derive getUtxos getTransactions fuel w threshold
          = Some (w1, Throw e))
  /\ (forall w1 h w2 e,
        Wallet.doDiscovery derive getTransactions fuel threshold w threshold
          AddressManager.receive 0 = Some (w1, Return h) ->
        Wallet.doDiscovery derive getTransactions fuel threshold w1 threshold
          AddressManager.change 0 = Some (w2, Throw e) ->
        Wallet.addressDiscovery derive getUtxos getTransactions fuel w threshold
          = Some (w2, Throw e)
        /\ Wallet.addressManager w2 = Wallet.addressManager w
        /\ Wallet.utxoSet w2 = Wallet.utxoSet w).
Proof.
  split; [|split].
  - intros n ty offset w' r. apply doDiscovery_frame.
  - intros w1 e H. unfold Wallet.addressDiscovery. now rewrite H.
  - intros w1 h w2 e H1 H2. unfold Wallet.addressDiscovery.
    rewrite H1, H2. split; [reflexivity|].
    apply doDiscovery_frame in H1. apply doDiscovery_frame in H2.
    destruct H1 as [U1 [_ [_ [A1 _]]]]. destruct H2 as [U2 [_ [_ [A2 _]]]].
    split; congruence.
Qed.

Lemma discovery_scan_frame_witness :
  Wallet.addressDiscovery derive getUtxos getTransactions_down 3 funded 20
  = Some (funded, Throw (Rejected "FetchError")).
Proof.
  refine (proj1 (proj2 (discovery_scan_frame derive getUtxos
                          getTransactions_down 3 20 funded)) funded _ _).
  vm_compute. reflexivity.
Defined.

End RefreshMore.

(* ------------------------------------------------------------------ *)
(** ** The hexadecimal id of [getUniqueId] *)

Module ActionsTheorems.
Import MoreSpec.

Lemma append_empty_r (s : string) : String.append s EmptyString = s.
Proof. induction s as [|c r IH]; simpl; [reflexivity | now rewrite IH]. Qed.

Lemma hashHex_cons (b : Init.Byte.byte) (bs : list Init.Byte.byte) :
  Actions.hashHex (b :: bs)
  = String.append (Actions.padStart 2 (Actions.toString16 b))
                  (Actions.hashHex bs).
Proof.
  unfold Actions.hashHex. cbn [map String.concat].
  destruct (map _ bs) eqn:E; [|reflexivity].
  simpl. now rewrite append_empty_r.
Qed.

(** Every byte is written as exactly two hexadecimal digits, high digit
    first. *)
Lemma byte_two_digits (b : Init.Byte.byte) :
  exists c1 c2 h l,
    Actions.padStart 2 (Actions.toString16 b) = String c1 (String c2 EmptyString)
    /\ hex_value c1 = Some h
    /\ hex_value c2 = Some l
    /\ Strings.Byte.of_N (16 * h + l) = Some b.
Proof.
  destruct b;
    (do 4 eexists; split; [vm_compute; reflexivity|];
     split; [reflexivity|]; split; reflexivity).
Qed.

(** X21. The id that [getUniqueId] builds holds two lower-case
    hexadecimal digits per byte of the digest, high digit first, from which
    the bytes can be read back; so its length is twice the number of bytes,
    and two mnemonics get the same id only if their digests are equal. *)
Theorem hashHex_roundtrip :
  (forall bytes : list Init.Byte.byte,
      unhex (Actions.hashHex bytes) = Some bytes
      /\ String.length (Actions.hashHex bytes) = (2 * List.length bytes)%nat)
  /\ (forall (encode : string -> list Init.Byte.byte)
             (digest : list Init.Byte.byte -> list Init.Byte.byte)
             (m1 m2 : string),
        Actions.getUniqueId encode digest m1
        = Actions.getUniqueId encode digest m2 ->
        digest (encode m1) = digest (encode m2)).
Proof.
  assert (R : forall bytes : list Init.Byte.byte,
            unhex (Actions.hashHex bytes) = Some bytes
            /\ String.length (Actions.hashHex bytes)
               = (2 * List.length bytes)%nat).
  { induction bytes as [|b bs [IH1 IH2]]; [split; reflexivity|].
    rewrite hashHex_cons.
    destruct (byte_two_digits b) as [c1 [c2 [h [l [E [H1 [H2 H3]]]]]]].
    rewrite E. cbn [String.append unhex String.length List.length].
    rewrite H1, H2, IH1, H3, IH2. split; [reflexivity | lia]. }
  split; [exact R|].
  intros encode digest m1 m2 H. unfold Actions.getUniqueId in H.
  pose proof (proj1 (R (digest (encode m1)))) as E1.
  pose proof (proj1 (R (digest (encode m2)))) as E2.
  rewrite H in E1. congruence.
Qed.

End ActionsTheorems.
